(** * QueueManager: the in-memory priority task queue

    A shallow embedding of [QueueManager] (the scheduler of the distributed
    task queue) together with the parts of [config] and [types] it uses.

    Modelling conventions.
    - JavaScript numbers that count things or hold millisecond timestamps are
      integers ([Z]); the running average [avgProcessingTime] is an exact
      rational ([Qc]), so rounding of IEEE doubles is not modelled.
    - [Date.now()] and [uuidv4()] are inputs of the operation that reads them;
      all clock reads of one call return the same value [now].
    - Task records are JavaScript objects: the [Map] [tasks] stores references
      into [objects], so that the closure handed to [setTimeout] in [failTask]
      keeps its task alive and shared exactly as the source does.
    - [setTimeout] appends a pending callback to [timers]; the event loop
      running one of them is the operation [fireTimer].  Any pending callback
      may run next: the model does not fix when a delay has elapsed.
    - [emit('queue:event', e)] appends [e] to [emitted]. *)

From Stdlib Require Import ZArith QArith Qcanon Lia.
From stdpp Require Import numbers strings pretty list fin_maps gmap.

Local Open Scope string_scope.
Local Open Scope list_scope.
Local Open Scope Z_scope.

(** ** types.ts *)

Inductive TaskPriority := High | Normal | Low.
Inductive TaskStatus := Pending | Processing | Completed | Failed | Retrying.
Inductive WorkerStatus := Idle | Busy.

#[global] Instance TaskPriority_eq_dec : EqDecision TaskPriority.
Proof. solve_decision. Defined.
#[global] Instance TaskStatus_eq_dec : EqDecision TaskStatus.
Proof. solve_decision. Defined.
#[global] Instance WorkerStatus_eq_dec : EqDecision WorkerStatus.
Proof. solve_decision. Defined.

(** [TaskType] is a union of string literals; [Record<string, any>] payloads
    and [any] results are opaque to the queue and kept as text. *)
Definition TaskType := string.
Definition Payload := string.
Definition Result := string.

Module Task.
Record t := mk {
  id : string;
  type : TaskType;
  payload : Payload;
  priority : TaskPriority;
  status : TaskStatus;
  retries : Z;
  maxRetries : Z;
  createdAt : Z;
  updatedAt : Z;
  startedAt : option Z;
  completedAt : option Z;
  failedAt : option Z;
  workerId : option string;
  lastError : option string;
  nextRetryAt : option Z;
  result : option Result
}.
End Task.

Module TaskCreateRequest.
Record t := mk {
  type : TaskType;
  payload : option Payload;
  priority : option TaskPriority;
  maxRetries : option Z
}.
End TaskCreateRequest.

Module Worker.
Record t := mk {
  id : string;
  status : WorkerStatus;
  tasksProcessed : Z;
  currentTask : option string;
  startedAt : Z;
  lastHeartbeat : Z;
  pid : option Z
}.

(** [Partial<Worker>] *)
Record partial := mkPartial {
  p_id : option string;
  p_status : option WorkerStatus;
  p_tasksProcessed : option Z;
  p_currentTask : option string;
  p_startedAt : option Z;
  p_lastHeartbeat : option Z;
  p_pid : option Z
}.

Definition no_info : partial := mkPartial None None None None None None None.
End Worker.

(** The three lanes [{ high, normal, low }], used for the queues themselves
    and for [queueLengths]. *)
Record Lanes (A : Type) := mkLanes { high : A; normal : A; low : A }.
Arguments mkLanes {A} _ _ _.
Arguments high {A} _.
Arguments normal {A} _.
Arguments low {A} _.

Record QueueStats := mkStats {
  tasksCreated : Z;
  pendingTasks : Z;
  processingTasks : Z;
  completedTasks : Z;
  failedTasks : Z;
  retriedTasks : Z;
  avgProcessingTime : Qc;
  activeWorkers : Z;
  queueLengths : Lanes Z;
  processingCount : Z
}.

(** [QueueEvent]: the event name and its task or worker fragment, with the
    timestamp added by [emitEvent]. *)
Inductive QueueEvent :=
  | task_created (id : string) (type : TaskType) (priority : TaskPriority)
      (status : TaskStatus) (timestamp : Z)
  | task_processing (id workerId : string) (type : TaskType) (timestamp : Z)
  | task_completed (id : string) (type : TaskType) (processingTime : Z)
      (timestamp : Z)
  | task_failed (id : string) (type : TaskType) (error : string) (timestamp : Z)
  | task_retrying (id : string) (retries maxRetries : Z) (timestamp : Z)
  | worker_registered (id : string) (timestamp : Z)
  | worker_unregistered (id : string) (timestamp : Z).

(** ** config.ts *)

Module WorkerConfig.
Record t := mk {
  count : Z;
  pollInterval : Z;
  maxRetries : Z;
  retryDelay : Z
}.
End WorkerConfig.

(** [config.worker] when no environment variable overrides it; [cpus] is
    [os.cpus().length]. *)
Definition default_worker (cpus : Z) : WorkerConfig.t :=
  WorkerConfig.mk cpus 100 3 1000.

(** ** JavaScript helpers *)

(** [a || b] on a string, an optional number and a rational: the empty
    string, [undefined] and [0] are falsy. *)
Definition or_string (a b : string) : string :=
  if decide (a = "") then b else a.

Definition or_number (a : option Z) (b : Z) : Z :=
  match a with
  | Some n => if decide (n = 0) then b else n
  | None => b
  end.

Definition or_rational (a b : Qc) : Qc :=
  if decide (a = 0%Qc) then b else a.

(** [Array.prototype.pop]: the last element and the shortened array, or
    nothing on an empty array.  [unshift] is [cons] and [push] is [++ [_]]. *)
Fixpoint pop {A} (l : list A) : option (A * list A) :=
  match l with
  | [] => None
  | x :: l' =>
      match pop l' with
      | None => Some (x, [])
      | Some (y, r) => Some (y, x :: r)
      end
  end.

(** [Array.prototype.indexOf], [-1] when absent. *)
Definition indexOf (x : string) (l : list string) : Z :=
  match list_find (λ y, y = x) l with
  | Some (i, _) => Z.of_nat i
  | None => -1
  end.

(** [const idx = a.indexOf(x); if (idx > -1) a.splice(idx, 1);] *)
Definition splice_out (x : string) (l : list string) : list string :=
  let idx := indexOf x l in
  if decide (idx > -1) then delete (Z.to_nat idx) l else l.

(** ** The QueueManager state *)

(** A callback handed to [setTimeout] by [failTask]: the captured [task]
    object and [taskId], and the delay passed to [setTimeout]. *)
Record Timer := mkTimer {
  timer_task : nat;
  timer_taskId : string;
  timer_delay : Z
}.

Record QueueManager := mkQM {
  queues : Lanes (list string);
  processing : list string;
  objects : list Task.t;
  tasks : gmap string nat;
  results : gmap string Result;
  workers : gmap string Worker.t;
  stats : QueueStats;
  timers : list Timer;
  emitted : list QueueEvent
}.

Definition lane {A} (p : TaskPriority) (q : Lanes A) : A :=
  match p with
  | High => high q
  | Normal => normal q
  | Low => low q
  end.

Definition set_lane {A} (p : TaskPriority) (v : A) (q : Lanes A) : Lanes A :=
  match p with
  | High => mkLanes v (normal q) (low q)
  | Normal => mkLanes (high q) v (low q)
  | Low => mkLanes (high q) (normal q) v
  end.

Definition with_queues (q : Lanes (list string)) (s : QueueManager) :=
  mkQM q (processing s) (objects s) (tasks s) (results s) (workers s)
    (stats s) (timers s) (emitted s).
Definition with_processing (l : list string) (s : QueueManager) :=
  mkQM (queues s) l (objects s) (tasks s) (results s) (workers s)
    (stats s) (timers s) (emitted s).
Definition with_objects (h : list Task.t) (s : QueueManager) :=
  mkQM (queues s) (processing s) h (tasks s) (results s) (workers s)
    (stats s) (timers s) (emitted s).
Definition with_tasks (m : gmap string nat) (s : QueueManager) :=
  mkQM (queues s) (processing s) (objects s) m (results s) (workers s)
    (stats s) (timers s) (emitted s).
Definition with_results (m : gmap string Result) (s : QueueManager) :=
  mkQM (queues s) (processing s) (objects s) (tasks s) m (workers s)
    (stats s) (timers s) (emitted s).
Definition with_workers (m : gmap string Worker.t) (s : QueueManager) :=
  mkQM (queues s) (processing s) (objects s) (tasks s) (results s) m
    (stats s) (timers s) (emitted s).
Definition with_stats (st : QueueStats) (s : QueueManager) :=
  mkQM (queues s) (processing s) (objects s) (tasks s) (results s) (workers s)
    st (timers s) (emitted s).
Definition with_timers (l : list Timer) (s : QueueManager) :=
  mkQM (queues s) (processing s) (objects s) (tasks s) (results s) (workers s)
    (stats s) l (emitted s).

(** [emitEvent] *)
Definition emitEvent (e : QueueEvent) (s : QueueManager) : QueueManager :=
  mkQM (queues s) (processing s) (objects s) (tasks s) (results s) (workers s)
    (stats s) (timers s) (emitted s ++ [e]).

(** [this.tasks.get(taskId)]: the reference held by the map and the object
    behind it.  A reference held by the map always has its object
    ([run_refs_ok] below), so the inner [None] is never reached. *)
Definition get_task (s : QueueManager) (taskId : string) : option (nat * Task.t) :=
  match tasks s !! taskId with
  | Some ref =>
      match objects s !! ref with
      | Some task => Some (ref, task)
      | None => None
      end
  | None => None
  end.

(** Assignment to fields of the object behind a reference. *)
Definition write_task (ref : nat) (task : Task.t) (s : QueueManager) :=
  with_objects (<[ref := task]> (objects s)) s.

(** The constructor. *)
Definition zero_stats (active : Z) : QueueStats :=
  mkStats 0 0 0 0 0 0 0%Qc active (mkLanes 0 0 0) 0.

Definition initial : QueueManager :=
  mkQM (mkLanes [] [] []) [] [] ∅ ∅ ∅ (zero_stats 0) [] [].

(** Assignments to single counters of [this.stats]. *)
Definition set_tasksCreated (v : Z) (st : QueueStats) :=
  mkStats v (pendingTasks st) (processingTasks st) (completedTasks st)
    (failedTasks st) (retriedTasks st) (avgProcessingTime st)
    (activeWorkers st) (queueLengths st) (processingCount st).
Definition set_pendingTasks (v : Z) (st : QueueStats) :=
  mkStats (tasksCreated st) v (processingTasks st) (completedTasks st)
    (failedTasks st) (retriedTasks st) (avgProcessingTime st)
    (activeWorkers st) (queueLengths st) (processingCount st).
Definition set_processingTasks (v : Z) (st : QueueStats) :=
  mkStats (tasksCreated st) (pendingTasks st) v (completedTasks st)
    (failedTasks st) (retriedTasks st) (avgProcessingTime st)
    (activeWorkers st) (queueLengths st) (processingCount st).
Definition set_completedTasks (v : Z) (st : QueueStats) :=
  mkStats (tasksCreated st) (pendingTasks st) (processingTasks st) v
    (failedTasks st) (retriedTasks st) (avgProcessingTime st)
    (activeWorkers st) (queueLengths st) (processingCount st).
Definition set_failedTasks (v : Z) (st : QueueStats) :=
  mkStats (tasksCreated st) (pendingTasks st) (processingTasks st)
    (completedTasks st) v (retriedTasks st) (avgProcessingTime st)
    (activeWorkers st) (queueLengths st) (processingCount st).
Definition set_retriedTasks (v : Z) (st : QueueStats) :=
  mkStats (tasksCreated st) (pendingTasks st) (processingTasks st)
    (completedTasks st) (failedTasks st) v (avgProcessingTime st)
    (activeWorkers st) (queueLengths st) (processingCount st).
Definition set_avgProcessingTime (v : Qc) (st : QueueStats) :=
  mkStats (tasksCreated st) (pendingTasks st) (processingTasks st)
    (completedTasks st) (failedTasks st) (retriedTasks st) v
    (activeWorkers st) (queueLengths st) (processingCount st).
Definition set_activeWorkers (v : Z) (st : QueueStats) :=
  mkStats (tasksCreated st) (pendingTasks st) (processingTasks st)
    (completedTasks st) (failedTasks st) (retriedTasks st)
    (avgProcessingTime st) v (queueLengths st) (processingCount st).

(** [this.queues[priority].unshift(taskId)] *)
Definition unshift_lane (p : TaskPriority) (taskId : string) (s : QueueManager) :=
  with_queues (set_lane p (taskId :: lane p (queues s)) (queues s)) s.

(** ** Assignments to the fields of a task object *)

(** [getNextTask]: [status = 'processing'], [workerId], [startedAt],
    [updatedAt]. *)
Definition assign_processing (workerId : string) (now : Z) (task : Task.t) : Task.t :=
  Task.mk (Task.id task) (Task.type task) (Task.payload task)
    (Task.priority task)
    Processing
    (Task.retries task) (Task.maxRetries task) (Task.createdAt task)
    now
    (Some now)
    (Task.completedAt task) (Task.failedAt task)
    (Some workerId)
    (Task.lastError task) (Task.nextRetryAt task) (Task.result task).

(** [completeTask]: [status = 'completed'], [completedAt], [updatedAt]. *)
Definition assign_completed (now : Z) (task : Task.t) : Task.t :=
  Task.mk (Task.id task) (Task.type task) (Task.payload task)
    (Task.priority task)
    Completed
    (Task.retries task) (Task.maxRetries task) (Task.createdAt task)
    now
    (Task.startedAt task)
    (Some now)
    (Task.failedAt task) (Task.workerId task) (Task.lastError task)
    (Task.nextRetryAt task) (Task.result task).

(** [failTask], retry branch: [status = 'retrying'], [retries++],
    [lastError], [nextRetryAt], [updatedAt]. *)
Definition assign_retrying (error : string) (now retryDelay : Z) (task : Task.t) : Task.t :=
  Task.mk (Task.id task) (Task.type task) (Task.payload task)
    (Task.priority task)
    Retrying
    (Task.retries task + 1)
    (Task.maxRetries task) (Task.createdAt task)
    now
    (Task.startedAt task) (Task.completedAt task) (Task.failedAt task)
    (Task.workerId task)
    (Some error)
    (Some (now + retryDelay))
    (Task.result task).

(** [failTask], final branch: [status = 'failed'], [failedAt], [lastError],
    [updatedAt]. *)
Definition assign_failed (error : string) (now : Z) (task : Task.t) : Task.t :=
  Task.mk (Task.id task) (Task.type task) (Task.payload task)
    (Task.priority task)
    Failed
    (Task.retries task) (Task.maxRetries task) (Task.createdAt task)
    now
    (Task.startedAt task) (Task.completedAt task)
    (Some now)
    (Task.workerId task)
    (Some error)
    (Task.nextRetryAt task) (Task.result task).

(** The retry callback: [status = 'pending'], [updatedAt]. *)
Definition assign_pending (now : Z) (task : Task.t) : Task.t :=
  Task.mk (Task.id task) (Task.type task) (Task.payload task)
    (Task.priority task)
    Pending
    (Task.retries task) (Task.maxRetries task) (Task.createdAt task)
    now
    (Task.startedAt task) (Task.completedAt task) (Task.failedAt task)
    (Task.workerId task) (Task.lastError task) (Task.nextRetryAt task)
    (Task.result task).

(** ** QueueManager.ts *)

Section QueueManager.

(** [config.worker] *)
Variable config : WorkerConfig.t.

(** [addTask]; [taskId] is the value of [uuidv4()], [priority] the optional
    second argument. *)
Definition addTask (taskId : string) (now : Z) (taskData : TaskCreateRequest.t)
    (priority : option TaskPriority) (s : QueueManager)
    : Task.t * QueueManager :=
  let priority := default Normal priority in
  let task :=
    Task.mk taskId
      (or_string (TaskCreateRequest.type taskData) "default")
      (default "{}" (TaskCreateRequest.payload taskData))
      priority
      Pending
      0
      (or_number (TaskCreateRequest.maxRetries taskData)
                 (WorkerConfig.maxRetries config))
      now now None None None None None None None in
  let ref := length (objects s) in
  let s := with_objects (objects s ++ [task]) s in
  let s := with_tasks (<[taskId := ref]> (tasks s)) s in
  let s := unshift_lane priority taskId s in
  let s := with_stats (set_tasksCreated (tasksCreated (stats s) + 1) (stats s)) s in
  let s := with_stats (set_pendingTasks (pendingTasks (stats s) + 1) (stats s)) s in
  let s := emitEvent (task_created taskId (Task.type task) priority Pending now) s in
  (task, s).

(** The body of the [for] loop of [getNextTask] over the remaining
    [priorities]. *)
Fixpoint scanLanes (priorities : list TaskPriority) (workerId : string)
    (now : Z) (s : QueueManager) : option Task.t * QueueManager :=
  match priorities with
  | [] => (None, s)
  | priority :: rest =>
      match pop (lane priority (queues s)) with
      | None => scanLanes rest workerId now s
      | Some (taskId, shorter) =>
          let s := with_queues (set_lane priority shorter (queues s)) s in
          if decide (taskId = "") then scanLanes rest workerId now s
          else
            match get_task s taskId with
            | Some (ref, task) =>
                let task := assign_processing workerId now task in
                let s := write_task ref task s in
                let s := with_processing (processing s ++ [taskId]) s in
                let s := with_stats (set_pendingTasks (pendingTasks (stats s) - 1) (stats s)) s in
                let s := with_stats (set_processingTasks (processingTasks (stats s) + 1) (stats s)) s in
                let s := emitEvent (task_processing taskId workerId (Task.type task) now) s in
                (Some task, s)
            | None => scanLanes rest workerId now s
            end
      end
  end.

Definition getNextTask (workerId : string) (now : Z) (s : QueueManager)
    : option Task.t * QueueManager :=
  scanLanes [High; Normal; Low] workerId now s.

(** [updateAverageProcessingTime] *)
Definition updateAverageProcessingTime (newTime : Z) (s : QueueManager) :=
  let completed := or_number (Some (completedTasks (stats s))) 1 in
  let currentAvg := or_rational (avgProcessingTime (stats s)) 0%Qc in
  with_stats
    (set_avgProcessingTime
       ((currentAvg * Qc_of_Z (completed - 1) + Qc_of_Z newTime)
          / Qc_of_Z completed)%Qc
       (stats s)) s.

(** [completeTask] *)
Definition completeTask (taskId : string) (result : Result) (now : Z)
    (s : QueueManager) : bool * QueueManager :=
  match get_task s taskId with
  | None => (false, s)
  | Some (ref, task) =>
      let task := assign_completed now task in
      let s := write_task ref task s in
      let s := with_results (<[taskId := result]> (results s)) s in
      let s := with_processing (splice_out taskId (processing s)) s in
      let s := with_stats (set_processingTasks (processingTasks (stats s) - 1) (stats s)) s in
      let s := with_stats (set_completedTasks (completedTasks (stats s) + 1) (stats s)) s in
      let processingTime :=
        now - or_number (Task.startedAt task) (Task.createdAt task) in
      let s := updateAverageProcessingTime processingTime s in
      let s := emitEvent (task_completed taskId (Task.type task) processingTime now) s in
      (true, s)
  end.

(** [failTask]; [error] is [error.message]. *)
Definition failTask (taskId : string) (error : string) (now : Z)
    (s : QueueManager) : bool * QueueManager :=
  match get_task s taskId with
  | None => (false, s)
  | Some (ref, task) =>
      let s := with_processing (splice_out taskId (processing s)) s in
      let s := with_stats (set_processingTasks (processingTasks (stats s) - 1) (stats s)) s in
      if decide (Task.retries task < Task.maxRetries task) then
        let retryDelay := WorkerConfig.retryDelay config * 2 ^ Task.retries task in
        let task := assign_retrying error now retryDelay task in
        let s := write_task ref task s in
        let s := with_timers (timers s ++ [mkTimer ref taskId retryDelay]) s in
        (true, s)
      else
        let task := assign_failed error now task in
        let s := write_task ref task s in
        let s := with_stats (set_failedTasks (failedTasks (stats s) + 1) (stats s)) s in
        let s := emitEvent (task_failed taskId (Task.type task) error now) s in
        (true, s)
  end.

(** The callback passed to [setTimeout] in [failTask], run by the event
    loop for the [i]-th pending timer.  It reads and writes the captured
    [task] object, whether or not [tasks] still refers to it; the captured
    object always exists ([fireTimer_Some] below). *)
Definition fireTimer (i : nat) (now : Z) (s : QueueManager) : QueueManager :=
  match timers s !! i with
  | None => s
  | Some tm =>
      let s := with_timers (delete i (timers s)) s in
      match objects s !! timer_task tm with
      | None => s
      | Some task =>
          let taskId := timer_taskId tm in
          let s := unshift_lane (Task.priority task) taskId s in
          let task := assign_pending now task in
          let s := write_task (timer_task tm) task s in
          let s := with_stats (set_pendingTasks (pendingTasks (stats s) + 1) (stats s)) s in
          let s := with_stats (set_retriedTasks (retriedTasks (stats s) + 1) (stats s)) s in
          emitEvent (task_retrying taskId (Task.retries task) (Task.maxRetries task) now) s
      end
  end.

(** [getTaskStatus] *)
Definition getTaskStatus (taskId : string) (s : QueueManager) : option Task.t :=
  match get_task s taskId with
  | None => None
  | Some (_, task) =>
      if decide (Task.status task = Completed) then
        Some (Task.mk (Task.id task) (Task.type task) (Task.payload task)
                (Task.priority task) (Task.status task) (Task.retries task)
                (Task.maxRetries task) (Task.createdAt task)
                (Task.updatedAt task) (Task.startedAt task)
                (Task.completedAt task) (Task.failedAt task)
                (Task.workerId task) (Task.lastError task)
                (Task.nextRetryAt task)
                (results s !! taskId))
      else Some task
  end.

(** [getQueueStats] *)
Definition getQueueStats (s : QueueManager) : QueueStats :=
  mkStats (tasksCreated (stats s)) (pendingTasks (stats s))
    (processingTasks (stats s)) (completedTasks (stats s))
    (failedTasks (stats s)) (retriedTasks (stats s))
    (avgProcessingTime (stats s)) (activeWorkers (stats s))
    (mkLanes (Z.of_nat (length (high (queues s))))
             (Z.of_nat (length (normal (queues s))))
             (Z.of_nat (length (low (queues s)))))
    (Z.of_nat (length (processing s))).

(** [registerWorker]: the fields of [info] that are present override the
    defaults. *)
Definition registerWorker (workerId : string) (info : Worker.partial)
    (now : Z) (s : QueueManager) : QueueManager :=
  let worker :=
    Worker.mk
      (default workerId (Worker.p_id info))
      (default Idle (Worker.p_status info))
      (default 0 (Worker.p_tasksProcessed info))
      (Worker.p_currentTask info)
      (default now (Worker.p_startedAt info))
      (default now (Worker.p_lastHeartbeat info))
      (Worker.p_pid info) in
  let s := with_workers (<[workerId := worker]> (workers s)) s in
  let s := with_stats (set_activeWorkers (activeWorkers (stats s) + 1) (stats s)) s in
  emitEvent (worker_registered workerId now) s.

(** [updateWorkerHeartbeat]; [status] defaults to ['idle']. *)
Definition updateWorkerHeartbeat (workerId : string)
    (status : option WorkerStatus) (currentTask : option string) (now : Z)
    (s : QueueManager) : QueueManager :=
  match workers s !! workerId with
  | Some worker =>
      let worker :=
        Worker.mk (Worker.id worker)
          (default Idle status)
          (Worker.tasksProcessed worker)
          (Some (default "" currentTask))
          (Worker.startedAt worker)
          now
          (Worker.pid worker) in
      with_workers (<[workerId := worker]> (workers s)) s
  | None => s
  end.

(** [incrementWorkerTaskCount] *)
Definition incrementWorkerTaskCount (workerId : string) (s : QueueManager) :=
  match workers s !! workerId with
  | Some worker =>
      let worker :=
        Worker.mk (Worker.id worker) (Worker.status worker)
          (Worker.tasksProcessed worker + 1)
          (Worker.currentTask worker) (Worker.startedAt worker)
          (Worker.lastHeartbeat worker) (Worker.pid worker) in
      with_workers (<[workerId := worker]> (workers s)) s
  | None => s
  end.

(** [unregisterWorker] *)
Definition unregisterWorker (workerId : string) (now : Z) (s : QueueManager) :=
  let s := with_workers (delete workerId (workers s)) s in
  let s := with_stats (set_activeWorkers (activeWorkers (stats s) - 1) (stats s)) s in
  emitEvent (worker_unregistered workerId now) s.

(** [clearAll]: the pending timers, the objects they captured and the
    worker registry are not touched. *)
Definition clearAll (s : QueueManager) : QueueManager :=
  mkQM (mkLanes [] [] []) [] (objects s) ∅ ∅ (workers s)
    (zero_stats (Z.of_nat (size (workers s))))
    (timers s) (emitted s).

(** ** Executions *)

(** The calls made on the queue manager by its callers (the HTTP routes,
    the worker loops) and by the event loop. *)
Inductive Op :=
  | Submit (taskId : string) (now : Z) (taskData : TaskCreateRequest.t)
      (priority : option TaskPriority)
  | FetchNext (workerId : string) (now : Z)
  | Complete (taskId : string) (result : Result) (now : Z)
  | Fail (taskId : string) (error : string) (now : Z)
  | TimerFires (i : nat) (now : Z)
  | ClearAll
  | RegisterWorker (workerId : string) (info : Worker.partial) (now : Z)
  | Heartbeat (workerId : string) (status : option WorkerStatus)
      (currentTask : option string) (now : Z)
  | IncrementWorkerTaskCount (workerId : string)
  | UnregisterWorker (workerId : string) (now : Z).

Definition step (s : QueueManager) (op : Op) : QueueManager :=
  match op with
  | Submit taskId now taskData priority =>
      snd (addTask taskId now taskData priority s)
  | FetchNext workerId now => snd (getNextTask workerId now s)
  | Complete taskId result now => snd (completeTask taskId result now s)
  | Fail taskId error now => snd (failTask taskId error now s)
  | TimerFires i now => fireTimer i now s
  | ClearAll => clearAll s
  | RegisterWorker workerId info now => registerWorker workerId info now s
  | Heartbeat workerId status currentTask now =>
      updateWorkerHeartbeat workerId status currentTask now s
  | IncrementWorkerTaskCount workerId => incrementWorkerTaskCount workerId s
  | UnregisterWorker workerId now => unregisterWorker workerId now s
  end.

Definition run (ops : list Op) (s : QueueManager) : QueueManager :=
  foldl step s ops.

End QueueManager.

#[global] Instance TaskCreateRequest_eq_dec : EqDecision TaskCreateRequest.t.
Proof. solve_decision. Defined.
#[global] Instance Worker_partial_eq_dec : EqDecision Worker.partial.
Proof. solve_decision. Defined.
#[global] Instance Op_eq_dec : EqDecision Op.
Proof. solve_decision. Defined.

(** Closed decidable facts about concrete executions. *)
Ltac by_computation := apply (bool_decide_unpack _); vm_compute; exact I.

(** ** Observations used in the statements *)

(** A lane in service order, oldest entry first: [unshift] adds at index 0
    and [pop] takes the last index. *)
Definition waiting (p : TaskPriority) (s : QueueManager) : list string :=
  reverse (lane p (queues s)).



(** The ids handed out by [uuidv4()] in an execution. *)
Fixpoint submitted (ops : list Op) : list string :=
  match ops with
  | [] => []
  | Submit taskId _ _ _ :: ops' => taskId :: submitted ops'
  | _ :: ops' => submitted ops'
  end.

(** The number of [Fail] calls made for a task id in an execution. *)
Fixpoint fail_calls (taskId : string) (ops : list Op) : Z :=
  match ops with
  | [] => 0
  | Fail taskId' _ _ :: ops' =>
      (if decide (taskId' = taskId) then 1 else 0) + fail_calls taskId ops'
  | _ :: ops' => fail_calls taskId ops'
  end.

(** The sum of the four task counters of the stats. *)
Definition accounted (st : QueueStats) : Z :=
  pendingTasks st + processingTasks st + completedTasks st + failedTasks st.

(** Every reference held by the map [m] or captured by a timer of [tl] points
    to an object of [h] carrying the id it is filed under. *)
Definition refs_ok_of (h : list Task.t) (m : gmap string nat) (tl : list Timer) : Prop :=
  (∀ taskId ref, m !! taskId = Some ref →
     ∃ task, h !! ref = Some task ∧ Task.id task = taskId)
  ∧ (∀ tm, tm ∈ tl →
     ∃ task, h !! timer_task tm = Some task ∧ Task.id task = timer_taskId tm).

Definition refs_ok (s : QueueManager) : Prop :=
  refs_ok_of (objects s) (tasks s) (timers s).

(** The empty id is not in the store, every queued id belongs to a stored
    task of that lane, and every pending retry is for the task its id is
    filed under. *)
Definition lanes_ok (s : QueueManager) : Prop :=
  tasks s !! "" = None
  ∧ (∀ p taskId, taskId ∈ lane p (queues s) →
       ∃ ref task, get_task s taskId = Some (ref, task)
                   ∧ Task.priority task = p)
  ∧ (∀ tm, tm ∈ timers s →
       tasks s !! timer_taskId tm = Some (timer_task tm)).

(** ** Invariants and how objects evolve *)

(** [preserved f h h']: every object of [h] is still there in [h'], with the
    same value of [f]. *)
Definition preserved {A} (f : Task.t → A) (h h' : list Task.t) : Prop :=
  ∀ ref task, h !! ref = Some task →
    ∃ task', h' !! ref = Some task' ∧ f task' = f task.

(** The fields no assignment touches. *)
Definition fixed_fields (task : Task.t) : string * TaskPriority * Z :=
  (Task.id task, Task.priority task, Task.maxRetries task).

(** The fields only [failTask] touches, with the bound they are compared to. *)
Definition retry_fields (task : Task.t) : Z * Z :=
  (Task.retries task, Task.maxRetries task).

(** The state in which [getNextTask] returns the task [task] it found under
    [taskId]. *)
Definition dispatched (taskId : string) (ref : nat) (task : Task.t)
    (workerId : string) (now : Z) (s : QueueManager) : QueueManager :=
  let task := assign_processing workerId now task in
  let s := write_task ref task s in
  let s := with_processing (processing s ++ [taskId]) s in
  let s := with_stats (set_pendingTasks (pendingTasks (stats s) - 1) (stats s)) s in
  let s := with_stats (set_processingTasks (processingTasks (stats s) + 1) (stats s)) s in
  emitEvent (task_processing taskId workerId (Task.type task) now) s.

(** The counters together with the retries that are scheduled but have not
    run yet. *)
Definition balance (s : QueueManager) : Z :=
  accounted (stats s) + Z.of_nat (length (timers s)) - tasksCreated (stats s).


(** The task filed under [taskId] is the object [ref], created with
    max-retries [m] and failed [k] times so far. *)
Definition retry_state (s : QueueManager) (taskId : string) (ref : nat)
    (m k : Z) : Prop :=
  tasks s !! taskId = Some ref
  ∧ ∃ task, objects s !! ref = Some task
            ∧ Task.maxRetries task = m
            ∧ Task.retries task = Z.min k (Z.max 0 m).

(** ** Concrete executions *)

(** A plain e-mail task, and one with [maxRetries: 2]. *)
Definition email : TaskCreateRequest.t :=
  TaskCreateRequest.mk "email" None None None.

Definition email_two_retries : TaskCreateRequest.t :=
  TaskCreateRequest.mk "email" None None (Some 2).

(** A task is submitted, fetched and failed once: it waits for its retry. *)
Definition one_failure : list Op :=
  [Submit "t1" 0 email None; FetchNext "worker-1" 10; Fail "t1" "boom" 20].

(** The queue is cleared during the retry delay of [t1]; the timer fires,
    and two more tasks are submitted, one normal and one low. *)
Definition stale_then_live : list Op :=
  one_failure ++ [ClearAll; TimerFires 0 1020;
                  Submit "t3" 1030 email None;
                  Submit "t2" 1040 email (Some Low)].

(** ** Further observations on the queue manager *)

(** [Object.values(stats.queueLengths).reduce((a, b) => a + b, 0)], the
    number of queued ids as the summary route and the dashboard compute it. *)
Definition totalQueued (st : QueueStats) : Z :=
  foldl Z.add 0 [high (queueLengths st); normal (queueLengths st);
                 low (queueLengths st)].

(** The number of ids in the three lanes. *)
Definition queued (q : Lanes (list string)) : Z :=
  Z.of_nat (length (lane High q) + length (lane Normal q) + length (lane Low q)).
Arguments queued : simpl never.

(** The number of events of one kind in the log. *)
Fixpoint count_events (kind : QueueEvent → bool) (es : list QueueEvent) : Z :=
  match es with
  | [] => 0
  | e :: es' => (if kind e then 1 else 0) + count_events kind es'
  end.

Definition is_task_created (e : QueueEvent) : bool :=
  match e with task_created _ _ _ _ _ => true | _ => false end.
Definition is_task_processing (e : QueueEvent) : bool :=
  match e with task_processing _ _ _ _ => true | _ => false end.
Definition is_task_completed (e : QueueEvent) : bool :=
  match e with task_completed _ _ _ _ => true | _ => false end.
Definition is_task_failed (e : QueueEvent) : bool :=
  match e with task_failed _ _ _ _ => true | _ => false end.
Definition is_task_retrying (e : QueueEvent) : bool :=
  match e with task_retrying _ _ _ _ => true | _ => false end.

(** Each counter against the events of its kind. *)
Definition counters_match (s : QueueManager) : Prop :=
  tasksCreated (stats s) = count_events is_task_created (emitted s)
  ∧ completedTasks (stats s) = count_events is_task_completed (emitted s)
  ∧ failedTasks (stats s) = count_events is_task_failed (emitted s)
  ∧ retriedTasks (stats s) = count_events is_task_retrying (emitted s)
  ∧ pendingTasks (stats s)
    = tasksCreated (stats s) + retriedTasks (stats s)
      - count_events is_task_processing (emitted s).

(** Every queued id and every id a pending retry will queue is in the store,
    and the empty id is not. *)
Definition live_ids (s : QueueManager) : Prop :=
  tasks s !! "" = None
  ∧ (∀ p taskId, taskId ∈ lane p (queues s) → is_Some (tasks s !! taskId))
  ∧ (∀ tm, tm ∈ timers s → is_Some (tasks s !! timer_taskId tm)).

(** The retry count of a task object stays within its bound, a failed task
    has used it up, and the object itself never carries a result. *)
Definition object_ok (task : Task.t) : Prop :=
  0 ≤ Task.retries task ≤ Z.max 0 (Task.maxRetries task)
  ∧ (Task.status task = Failed → Task.maxRetries task ≤ Task.retries task)
  ∧ Task.result task = None.

(** A pending retry was scheduled with the delay of one of the failures its
    task has had. *)
Definition timer_backoff (config : WorkerConfig.t) (s : QueueManager)
    (tm : Timer) : Prop :=
  ∃ task j, objects s !! timer_task tm = Some task
            ∧ 0 ≤ j < Task.retries task
            ∧ timer_delay tm = WorkerConfig.retryDelay config * 2 ^ j.

(** A stored task that is completed has a stored result. *)
Definition results_ok_of (h : list Task.t) (m : gmap string nat)
    (r : gmap string Result) : Prop :=
  ∀ taskId ref task,
    m !! taskId = Some ref → h !! ref = Some task →
    Task.status task = Completed → is_Some (r !! taskId).

Definition results_ok (s : QueueManager) : Prop :=
  results_ok_of (objects s) (tasks s) (results s).

(** The worker ids registered after the calls [ops], starting from the ids
    [registered], or nothing when a worker registers twice or one that is
    not registered unregisters. *)
Fixpoint registrations (registered : gset string) (ops : list Op)
    : option (gset string) :=
  match ops with
  | [] => Some registered
  | RegisterWorker workerId _ _ :: ops' =>
      if decide (workerId ∈ registered) then None
      else registrations ({[workerId]} ∪ registered) ops'
  | UnregisterWorker workerId _ :: ops' =>
      if decide (workerId ∈ registered)
      then registrations (registered ∖ {[workerId]}) ops'
      else None
  | _ :: ops' => registrations registered ops'
  end.

(** Every object is still there, with a retry count that did not go down. *)
Definition retries_grow (h h' : list Task.t) : Prop :=
  ∀ ref task, h !! ref = Some task →
    ∃ task', h' !! ref = Some task' ∧ Task.retries task ≤ Task.retries task'.

(** ** workers/taskHandlers.ts: the arithmetic of the computation handler *)



(** The loop of [factorial]: [iterations] more rounds of [result *= i; i++]. *)
Fixpoint factorial_loop (iterations : nat) (i result : Z) : Z :=
  match iterations with
  | O => result
  | S k => factorial_loop k (i + 1) (result * i)
  end.

(** [factorial]; the loop runs over BigInts for [i = 2n .. BigInt(n)], and
    [toString] prints the result in decimal. *)
Definition factorial (n : Z) : string :=
  if decide (n ≤ 1) then "1"
  else pretty (factorial_loop (Z.to_nat (n - 1)) 2 1).












(** ** The dashboard and the summary route *)

(** [updateHealthBadge]: the badge's [textContent] and [className]. *)
Definition updateHealthBadge (totalQueued : Z) : string * string :=
  if decide (totalQueued < 50) then ("Healthy", "badge")
  else if decide (totalQueued < 200) then ("Moderate", "badge warning")
  else ("Overloaded", "badge danger").

(** [queueHealth] of [GET /api/stats/summary]. *)
Definition summary_queueHealth (totalQueued : Z) : string :=
  if decide (totalQueued < 100) then "healthy"
  else if decide (totalQueued < 500) then "moderate"
  else "overloaded".

(** [formatUptime]; [Math.floor(a / b)] is [a `div` b], [%] is [Z.rem], and
    a number in a template literal is printed in decimal. *)
Definition formatUptime (ms : Z) : string :=
  let seconds := ms `div` 1000 in
  let minutes := seconds `div` 60 in
  let hours := minutes `div` 60 in
  if decide (hours > 0) then
    pretty hours +:+ "h " +:+ pretty (minutes `rem` 60) +:+ "m"
  else if decide (minutes > 0) then
    pretty minutes +:+ "m " +:+ pretty (seconds `rem` 60) +:+ "s"
  else pretty seconds +:+ "s".

(** ** api/routes/tasks.ts *)












(** ** workers/Worker.ts *)

(** The fields of a [Worker] object that its methods read and write. *)
Module WorkerObject.
Record t := mk {
  id : string;
  isRunning : bool;
  currentTask : option Task.t;
  tasksProcessed : Z
}.
End WorkerObject.






(** A completion or failure is reported for a task that is in flight, or
    for an id the store does not know. *)
Definition answers_in_flight (s : QueueManager) (op : Op) : bool :=
  match op with
  | Complete taskId _ _ | Fail taskId _ _ =>
      match get_task s taskId with
      | Some _ => bool_decide (taskId ∈ processing s)
      | None => true
      end
  | _ => true
  end.

(** Every completion and failure of the execution [ops] from [s] is
    reported for a task in flight at that moment. *)
Fixpoint in_flight_only (config : WorkerConfig.t) (ops : list Op)
    (s : QueueManager) : bool :=
  match ops with
  | [] => true
  | op :: rest =>
      answers_in_flight s op && in_flight_only config rest (step config s op)
  end.






(** ** demo.ts *)

(** The single-queue demo: [TaskQueue] and the route that fills it.  The
    queue array and the map hold the same task objects, so both hold
    references into [objects]. *)
Module Demo.

Inductive Status :=
  | status_pending | status_processing | status_completed | status_failed.

Record Task := mkTask {
  id : string;
  type : string;
  status : Status;
  createdAt : Z;
  startedAt : option Z;
  completedAt : option Z;
  workerId : option string;
  result : option Result
}.

Record Stats := mkStats {
  created : Z;
  completed : Z;
  failed : Z;
  totalProcessingTime : Z
}.

Record TaskQueue := mkQueue {
  queue : list nat;
  tasks : gmap string nat;
  objects : list Task;
  stats : Stats
}.

Definition empty : TaskQueue := mkQueue [] ∅ [] (mkStats 0 0 0 0).

(** [addTask]; [taskId] is the string built from the clock and
    [Math.random()]. *)
Definition addTask (taskId : string) (now : Z) (type : string) (q : TaskQueue)
    : Task * TaskQueue :=
  let task := mkTask taskId type status_pending now None None None None in
  let ref := length (objects q) in
  (task,
   mkQueue (queue q ++ [ref]) (<[taskId := ref]> (tasks q))
     (objects q ++ [task])
     (mkStats (created (stats q) + 1) (completed (stats q))
        (failed (stats q)) (totalProcessingTime (stats q)))).

(** [getNextTask]: [shift] takes the head of the array.  A reference in
    the queue always has its object, so the inner [None] is never
    reached. *)
Definition getNextTask (now : Z) (q : TaskQueue) : option Task * TaskQueue :=
  match queue q with
  | [] => (None, q)
  | ref :: rest =>
      match objects q !! ref with
      | Some task =>
          let task := mkTask (id task) (type task) status_processing (createdAt task)
                        (Some now) (completedAt task) (workerId task)
                        (result task) in
          (Some task,
           mkQueue rest (tasks q) (<[ref := task]> (objects q)) (stats q))
      | None => (None, mkQueue rest (tasks q) (objects q) (stats q))
      end
  end.

(** [completeTask] *)
Definition completeTask (taskId : string) (res : Result) (now : Z)
    (q : TaskQueue) : TaskQueue :=
  match tasks q !! taskId with
  | Some ref =>
      match objects q !! ref with
      | Some task =>
          let task := mkTask (id task) (type task) status_completed (createdAt task)
                        (startedAt task) (Some now) (workerId task)
                        (Some res) in
          mkQueue (queue q) (tasks q) (<[ref := task]> (objects q))
            (mkStats (created (stats q)) (completed (stats q) + 1)
               (failed (stats q))
               (totalProcessingTime (stats q)
                + (now - or_number (startedAt task) (createdAt task))))
      | None => q
      end
  | None => q
  end.

(** The object [getStats] returns. *)
Record FullStats := mkFullStats {
  stats_created : Z;
  stats_completed : Z;
  stats_failed : Z;
  stats_totalProcessingTime : Z;
  stats_pending : Z;
  stats_avgProcessingTime : Z
}.

(** [Math.round(total / count)] for a positive [count]: the nearest integer,
    a half rounded up.  The quotient of two doubles rounds as the exact
    quotient does while [|total| < 2^52]. *)
Definition round_div (total count : Z) : Z :=
  (2 * total + count) `div` (2 * count).

(** [getStats] *)
Definition getStats (q : TaskQueue) : FullStats :=
  mkFullStats (created (stats q)) (completed (stats q))
    (failed (stats q)) (totalProcessingTime (stats q))
    (Z.of_nat (length (queue q)))
    (if decide (completed (stats q) > 0)
     then round_div (totalProcessingTime (stats q)) (completed (stats q))
     else 0).

(** [clear] *)
Definition clear (q : TaskQueue) : TaskQueue :=
  mkQueue [] ∅ (objects q) (mkStats 0 0 0 0).

(** The loop of [POST /api/tasks], [iterations] times from the [k]-th
    task on; the [k]-th task gets the id [ids k] at the time [clock k]. *)
Fixpoint postLoop (iterations k : nat) (ids : nat → string) (clock : nat → Z)
    (type : string) (created_tasks : list Task) (q : TaskQueue)
    : list Task * TaskQueue :=
  match iterations with
  | O => (created_tasks, q)
  | S n =>
      let r := addTask (ids k) (clock k) type q in
      postLoop n (S k) ids clock type (created_tasks ++ [fst r]) (snd r)
  end.

(** [POST /api/tasks] with an integer [count]: [type] defaults to
    ['default'] and [count] to [1]; the loop runs while
    [i < Math.min(count, 100)].  The answer is the [created] field and the
    tasks. *)
Definition postTasks (ids : nat → string) (clock : nat → Z)
    (type : option string) (count : option Z) (q : TaskQueue)
    : (Z * list Task) * TaskQueue :=
  let type := default "default" type in
  let count := default 1 count in
  let r := postLoop (Z.to_nat (Z.min count 100)) 0 ids clock type [] q in
  ((Z.of_nat (length (fst r)), fst r), snd r).

(** The calls made on the queue by the route, the workers and the clear
    route. *)
Inductive Op :=
  | Add (taskId : string) (now : Z) (type : string)
  | Next (now : Z)
  | Complete (taskId : string) (res : Result) (now : Z)
  | Clear.

(** An execution, with the ids of the tasks [getNextTask] handed out, in
    the order of the calls. *)
Definition step (acc : list string * TaskQueue) (op : Op)
    : list string * TaskQueue :=
  match op with
  | Add taskId now type => (fst acc, snd (addTask taskId now type (snd acc)))
  | Next now =>
      let r := getNextTask now (snd acc) in
      (fst acc ++ match fst r with Some task => [id task] | None => [] end,
       snd r)
  | Complete taskId res now =>
      (fst acc, completeTask taskId res now (snd acc))
  | Clear => (fst acc, clear (snd acc))
  end.

Definition run (ops : list Op) : list string * TaskQueue :=
  foldl step ([], empty) ops.

(** The ids given to [addTask], in the order of the calls. *)
Fixpoint added (ops : list Op) : list string :=
  match ops with
  | [] => []
  | Add taskId _ _ :: rest => taskId :: added rest
  | _ :: rest => added rest
  end.

(** The ids of the tasks in the queue, head first. *)
Definition queue_ids (q : TaskQueue) : list string :=
  omap (λ ref, id <$> objects q !! ref) (queue q).

(** The number of tasks handed out so far is [k]: the objects are the
    added tasks in order, and the queue holds all but the first [k]. *)
Definition fifo_state (k : nat) (ids : list string)
    (acc : list string * TaskQueue) : Prop :=
  (k ≤ length ids)%nat
  ∧ id <$> objects (snd acc) = ids
  ∧ queue (snd acc) = seq k (length ids - k)
  ∧ fst acc = take k ids
  ∧ created (stats (snd acc)) = Z.of_nat (length ids).

End Demo.

#[global] Instance demo_op_eq_dec : EqDecision Demo.Op.
Proof. solve_decision. Defined.

(** ** Basic facts *)

Lemma pop_snoc {A} (l : list A) (x : A) : pop (l ++ [x]) = Some (x, l).
Proof.
  induction l as [|y l IH]; simpl; [done|]. by rewrite IH.
Qed.

Lemma pop_None {A} (l : list A) : pop l = None ↔ l = [].
Proof.
  split; [|by intros ->].
  destruct l as [|y l]; [done|]. simpl. by destruct (pop l) as [[? ?]|].
Qed.

Lemma pop_Some {A} (l r : list A) (x : A) : pop l = Some (x, r) ↔ l = r ++ [x].
Proof.
  split; [|intros ->; apply pop_snoc].
  revert r. induction l as [|y l IH]; intros r; simpl; [done|].
  destruct (pop l) as [[z r']|] eqn:E.
  - intros [= <- <-]. simpl. f_equal. by apply IH.
  - intros [= <- <-]. apply pop_None in E. by subst.
Qed.

Lemma get_task_None s taskId : tasks s !! taskId = None → get_task s taskId = None.
Proof. unfold get_task. by intros ->. Qed.

Lemma get_task_Some s taskId ref task :
  get_task s taskId = Some (ref, task) ↔
  tasks s !! taskId = Some ref ∧ objects s !! ref = Some task.
Proof.
  unfold get_task. split.
  - destruct (tasks s !! taskId) as [r|]; [|done].
    destruct (objects s !! r) eqn:E; [|done]. by intros [= <- <-].
  - by intros [-> ->].
Qed.

Lemma run_snoc config ops op s :
  run config (ops ++ [op]) s = step config (run config ops s) op.
Proof. unfold run. by rewrite foldl_app. Qed.

Lemma submitted_app ops ops' : submitted (ops ++ ops') = submitted ops ++ submitted ops'.
Proof.
  induction ops as [|op ops IH]; [done|].
  destruct op; simpl; by rewrite ?IH.
Qed.

Lemma fail_calls_app taskId ops ops' :
  fail_calls taskId (ops ++ ops') = fail_calls taskId ops + fail_calls taskId ops'.
Proof.
  induction ops as [|op ops IH]; [done|].
  destruct op; simpl; rewrite ?IH; lia.
Qed.

Lemma fail_calls_nonneg taskId ops : 0 ≤ fail_calls taskId ops.
Proof.
  induction ops as [|op ops IH]; simpl; [lia|].
  destruct op; try lia. case_decide; lia.
Qed.



(** *** The scan of [getNextTask] *)

(** A lane that the remaining scan does not visit is left as it is. *)
Lemma scanLanes_other_lane ps p w now s :
  p ∉ ps → lane p (queues (snd (scanLanes ps w now s))) = lane p (queues s).
Proof.
  revert s. induction ps as [|q ps IH]; intros s Hp; [done|].
  apply not_elem_of_cons in Hp as [Hpq Hp]. simpl.
  destruct (pop (lane q (queues s))) as [[x r]|]; [|by apply IH].
  assert (Hset : ∀ s', queues s' = set_lane q r (queues s) →
                       lane p (queues s') = lane p (queues s)).
  { intros s' ->. by destruct p, q. }
  case_decide; [rewrite IH by done; by apply Hset|].
  destruct (get_task _ x) as [[ref task]|]; [|rewrite IH by done; by apply Hset].
  simpl. by destruct p, q.
Qed.

(** Lanes that are empty are skipped. *)
Lemma scanLanes_skip_empty ps ps' w now s :
  (∀ q, q ∈ ps → lane q (queues s) = []) →
  scanLanes (ps ++ ps') w now s = scanLanes ps' w now s.
Proof.
  induction ps as [|q ps IH]; intros He; [done|]. simpl.
  rewrite (He q) by set_solver. simpl. apply IH. intros; apply He; set_solver.
Qed.

(** An id without a task object, or the empty id, is popped and the scan
    goes on with the next priority. *)
Lemma scanLanes_skip_stale p ps w now s x rest :
  lane p (queues s) = rest ++ [x] →
  tasks s !! x = None →
  scanLanes (p :: ps) w now s
  = scanLanes ps w now (with_queues (set_lane p rest (queues s)) s).
Proof.
  intros Hl Hx. simpl. rewrite Hl, pop_snoc.
  case_decide; [done|].
  by rewrite get_task_None.
Qed.

Lemma lane_set_lane {A} p (v : A) q : lane p (set_lane p v q) = v.
Proof. by destruct p. Qed.

Lemma lane_set_lane_ne {A} p p' (v : A) q :
  p ≠ p' → lane p' (set_lane p v q) = lane p' q.
Proof. by destruct p, p'. Qed.


(** *** Unknown ids *)

Lemma completeTask_unknown s taskId result now :
  tasks s !! taskId = None → completeTask taskId result now s = (false, s).
Proof. intros H. unfold completeTask. by rewrite get_task_None. Qed.

Lemma failTask_unknown config s taskId error now :
  tasks s !! taskId = None → failTask config taskId error now s = (false, s).
Proof. intros H. unfold failTask. by rewrite get_task_None. Qed.

(** ** Complete and Fail on an unknown id *)

(** C6. For a task id that is not in the task store, [completeTask] and
    [failTask] both return [false] (not found) and hand back the very same
    state: no counter, lane, in-flight entry, task or result is changed. *)
Theorem complete_fail_unknown_id config s taskId result error now :
  tasks s !! taskId = None →
  completeTask taskId result now s = (false, s)
  ∧ failTask config taskId error now s = (false, s).
Proof.
  intros H. split; [by apply completeTask_unknown | by apply failTask_unknown].
Qed.

(** *** What [addTask] and [failTask] do to the task object *)

Lemma addTask_get_task config taskId now taskData priority s :
  get_task (snd (addTask config taskId now taskData priority s)) taskId
  = Some (length (objects s), fst (addTask config taskId now taskData priority s)).
Proof.
  apply get_task_Some. simpl. split.
  - apply lookup_insert_eq.
  - rewrite lookup_app_r by lia. by rewrite Nat.sub_diag.
Qed.

Lemma failTask_retry config s taskId error now ref task :
  get_task s taskId = Some (ref, task) →
  Task.retries task < Task.maxRetries task →
  let r := failTask config taskId error now s in
  fst r = true
  ∧ timers (snd r)
    = timers s ++ [mkTimer ref taskId
                     (WorkerConfig.retryDelay config * 2 ^ Task.retries task)]
  ∧ (∃ task', get_task (snd r) taskId = Some (ref, task')
              ∧ Task.status task' = Retrying
              ∧ Task.retries task' = Task.retries task + 1
              ∧ Task.maxRetries task' = Task.maxRetries task)
  ∧ failedTasks (stats (snd r)) = failedTasks (stats s)
  ∧ emitted (snd r) = emitted s.
Proof.
  intros Hg Hlt. pose proof Hg as [Ht Ho]%get_task_Some.
  unfold failTask. rewrite Hg. rewrite decide_True by done. simpl.
  split_and!; try done.
  eexists. split.
  - apply get_task_Some. simpl. split; [done|].
    apply list_lookup_insert_eq. by eapply lookup_lt_Some.
  - done.
Qed.

Lemma failTask_final config s taskId error now ref task :
  get_task s taskId = Some (ref, task) →
  ¬ Task.retries task < Task.maxRetries task →
  let r := failTask config taskId error now s in
  fst r = true
  ∧ timers (snd r) = timers s
  ∧ (∃ task', get_task (snd r) taskId = Some (ref, task')
              ∧ Task.status task' = Failed
              ∧ Task.retries task' = Task.retries task
              ∧ Task.maxRetries task' = Task.maxRetries task)
  ∧ failedTasks (stats (snd r)) = failedTasks (stats s) + 1
  ∧ emitted (snd r)
    = emitted s ++ [task_failed taskId (Task.type task) error now].
Proof.
  intros Hg Hlt. pose proof Hg as [Ht Ho]%get_task_Some.
  unfold failTask. rewrite Hg. rewrite decide_False by done. simpl.
  split_and!; try done.
  eexists. split.
  - apply get_task_Some. simpl. split; [done|].
    apply list_lookup_insert_eq. by eapply lookup_lt_Some.
  - done.
Qed.

(** ** The default for max-retries *)

(** C10. A request with [maxRetries: 0] creates the same task as a request
    without the field: its [maxRetries] is the configured default, which is 3
    under the default configuration, so the first failure of such a task
    schedules a retry instead of failing it for good. *)
Theorem addTask_maxRetries_zero_is_default
    config cpus taskId now type payload prio priority error now' s :
  let zero := TaskCreateRequest.mk type payload prio (Some 0) in
  let omitted := TaskCreateRequest.mk type payload prio None in
  addTask config taskId now zero priority s
    = addTask config taskId now omitted priority s
  ∧ Task.maxRetries (fst (addTask config taskId now zero priority s))
    = WorkerConfig.maxRetries config
  ∧ Task.maxRetries (fst (addTask (default_worker cpus) taskId now zero priority s))
    = 3
  ∧ get_task (snd (addTask config taskId now zero priority s)) taskId
    = Some (length (objects s), fst (addTask config taskId now zero priority s))
  ∧ (let s1 := snd (addTask (default_worker cpus) taskId now zero priority s) in
     let s2 := snd (failTask (default_worker cpus) taskId error now' s1) in
     Task.status ∘ snd <$> get_task s2 taskId = Some Retrying
     ∧ timers s2 = timers s ++ [mkTimer (length (objects s)) taskId 1000]).
Proof.
  intros zero omitted. split_and!; try done.
  - apply addTask_get_task.
  - intros s1 s2.
    destruct (failTask_retry (default_worker cpus) s1 taskId error now' _ _
                (addTask_get_task _ _ _ _ _ _)) as (_ & Htm & (t' & Hg & Hst & _) & _).
    { simpl. lia. }
    split.
    + unfold s2. rewrite Hg. simpl. by rewrite Hst.
    + unfold s2. rewrite Htm. done.
Qed.

(** ** ClearAll *)

(** C5, as the code has it. [clearAll] zeroes the created, pending,
    processing, completed, failed and retried counters and the running
    average, empties the three lanes, the in-flight list and the task and
    result stores (so the reported lane lengths and in-flight count are
    zero), and leaves the worker registry as it is; the active-worker count
    reported afterwards is the number of records in that registry, which is
    the count reported before whenever the counter agreed with the
    registry. *)
Theorem clearAll_resets s :
  let s' := clearAll s in
  let st := getQueueStats s' in
  tasksCreated st = 0 ∧ pendingTasks st = 0 ∧ processingTasks st = 0
  ∧ completedTasks st = 0 ∧ failedTasks st = 0 ∧ retriedTasks st = 0
  ∧ avgProcessingTime st = 0%Qc
  ∧ queueLengths st = mkLanes 0 0 0 ∧ processingCount st = 0
  ∧ queues s' = mkLanes [] [] [] ∧ processing s' = []
  ∧ tasks s' = ∅ ∧ results s' = ∅
  ∧ workers s' = workers s
  ∧ activeWorkers st = Z.of_nat (size (workers s))
  ∧ (activeWorkers (getQueueStats s) = Z.of_nat (size (workers s)) →
     activeWorkers st = activeWorkers (getQueueStats s)).
Proof. simpl. by split_and!. Qed.

(** ** Worker registration *)

(** C9. [unregisterWorker] has no guard: for a worker id that is not in the
    registry it still subtracts one from the active-worker counter and still
    emits [worker:unregistered], the registry staying as it was; on a fresh
    queue manager the counter becomes -1.  [completeTask] and [failTask] on
    an unknown task id change nothing. *)
Theorem unregister_unknown_worker config s workerId now result error :
  workers s !! workerId = None →
  let s' := unregisterWorker workerId now s in
  activeWorkers (stats s') = activeWorkers (stats s) - 1
  ∧ emitted s' = emitted s ++ [worker_unregistered workerId now]
  ∧ workers s' = workers s
  ∧ activeWorkers (stats (unregisterWorker workerId now initial)) = -1
  ∧ (tasks s !! workerId = None →
     snd (completeTask workerId result now s) = s
     ∧ snd (failTask config workerId error now s) = s).
Proof.
  intros H. simpl. split_and!; try done.
  - by apply delete_id.
  - intros Ht. by rewrite completeTask_unknown, failTask_unknown.
Qed.

(** ** Stale ids in a lane *)

(** C8. Let [p] be the first non-empty lane of the scan, let [x] be the id
    [getNextTask] pops from it (its last entry), and let [x] have no record
    in the task store.  Then the call behaves as the scan of the
    lower-priority lanes alone, started with [x] removed from lane [p]; the
    other entries [rest] of lane [p] are all still queued afterwards, and when
    the lower lanes are empty the call returns no task, whatever [rest]
    holds. *)
Theorem getNextTask_drops_stale_id higher p lower workerId now s x rest :
  higher ++ p :: lower = [High; Normal; Low] →
  (∀ q, q ∈ higher → lane q (queues s) = []) →
  lane p (queues s) = rest ++ [x] →
  tasks s !! x = None →
  let dropped := with_queues (set_lane p rest (queues s)) s in
  let r := getNextTask workerId now s in
  r = scanLanes lower workerId now dropped
  ∧ lane p (queues (snd r)) = rest
  ∧ ((∀ q, q ∈ lower → lane q (queues s) = []) → r = (None, dropped)).
Proof.
  intros Hsplit Hhigher Hlane Hx dropped r.
  assert (Hr : r = scanLanes lower workerId now dropped).
  { unfold r, getNextTask. rewrite <- Hsplit.
    rewrite scanLanes_skip_empty by done.
    by apply scanLanes_skip_stale with x. }
  assert (Hp : p ∉ lower).
  { assert (Hnd : NoDup (higher ++ p :: lower)).
    { rewrite Hsplit. by apply (bool_decide_unpack _). }
    apply NoDup_app in Hnd as (_ & _ & Hnd). by apply NoDup_cons in Hnd as [? _]. }
  split_and!; [done| |].
  - rewrite Hr, scanLanes_other_lane by done. apply lane_set_lane.
  - intros Hlower. rewrite Hr.
    rewrite <- (app_nil_r lower). rewrite scanLanes_skip_empty; [done|].
    intros q Hq. unfold dropped. simpl. rewrite lane_set_lane_ne; [by apply Hlower|].
    by intros ->.
Qed.

(** ** The retry timer and ClearAll *)

(** C7. [clearAll] leaves the pending timers and the task objects they
    captured untouched, so a timer pending when [clearAll] runs re-inserts
    its task id into the emptied lane when it fires later.  One such
    execution under the default configuration: a task is submitted at time
    0, fetched, and failed at time 20, which schedules its re-enqueue 1000 ms
    later; the queue is cleared and the timer fires at time 1020, after
    which the normal lane holds the id of a task that is not in the store. *)
Theorem retry_timer_survives_clearAll :
  (∀ s, timers (clearAll s) = timers s ∧ objects (clearAll s) = objects s)
  ∧ (∀ s i now tm task,
       timers s !! i = Some tm →
       objects s !! timer_task tm = Some task →
       let s' := fireTimer i now (clearAll s) in
       lane (Task.priority task) (queues s') = [timer_taskId tm]
       ∧ tasks s' = ∅
       ∧ pendingTasks (stats s') = 1)
  ∧ (let config := default_worker 4 in
     let request := TaskCreateRequest.mk "email" None None None in
     let s1 := run config [Submit "t1" 0 request None;
                           FetchNext "worker-1" 10;
                           Fail "t1" "boom" 20] initial in
     let s2 := run config [ClearAll] s1 in
     let s3 := run config [TimerFires 0 1020] s2 in
     timers s1 = [mkTimer 0 "t1" 1000]
     ∧ timers s2 = timers s1
     ∧ queues s2 = mkLanes [] [] []
     ∧ queues s3 = mkLanes [] ["t1"] []
     ∧ tasks s3 !! "t1" = None
     ∧ timers s3 = []).
Proof.
  split_and!.
  - done.
  - intros s i now tm task Hi Ho. unfold fireTimer. simpl.
    rewrite Hi, Ho. simpl. split_and!; try done.
    by destruct (Task.priority task).
  - vm_compute. by split_and!.
Qed.

(** ** Objects and references along an execution *)

Lemma preserved_refl {A} (f : Task.t → A) h : preserved f h h.
Proof. intros ref task H. eauto. Qed.

Lemma preserved_alloc {A} (f : Task.t → A) h task : preserved f h (h ++ [task]).
Proof.
  intros ref t H. exists t. split; [|done].
  rewrite lookup_app_l; [done|]. by eapply lookup_lt_Some.
Qed.

Lemma preserved_write {A} (f : Task.t → A) h ref task task' :
  h !! ref = Some task → f task' = f task → preserved f h (<[ref := task']> h).
Proof.
  intros Hr Hf r t Ht. destruct (decide (r = ref)) as [->|Hne].
  - exists task'. rewrite list_lookup_insert_eq by (by eapply lookup_lt_Some).
    split; [done|]. congruence.
  - exists t. by rewrite list_lookup_insert_ne.
Qed.

(** The two outcomes of a scan: nothing found, with some lanes shortened; or
    the last id of a lane found in the store and dispatched. *)
Lemma scanLanes_spec ps workerId now s :
  ∃ q', (∀ p, lane p q' `prefix_of` lane p (queues s)) ∧
    (scanLanes ps workerId now s = (None, with_queues q' s)
     ∨ ∃ taskId ref task,
         taskId ≠ "" ∧ get_task s taskId = Some (ref, task)
         ∧ scanLanes ps workerId now s
           = (Some (assign_processing workerId now task),
              dispatched taskId ref task workerId now (with_queues q' s))).
Proof.
  revert s. induction ps as [|p ps IH]; intros s.
  { exists (queues s). split; [done|]. left. by destruct s. }
  simpl. destruct (pop (lane p (queues s))) as [[x r]|] eqn:Hpop; [|apply IH].
  apply pop_Some in Hpop.
  set (s1 := with_queues (set_lane p r (queues s)) s).
  assert (Hpre : ∀ p', lane p' (queues s1) `prefix_of` lane p' (queues s)).
  { intros p'. simpl. destruct (decide (p = p')) as [<-|Hne].
    - rewrite lane_set_lane, Hpop. by apply prefix_app_r.
    - by rewrite lane_set_lane_ne. }
  assert (Hrec : ∃ q', (∀ p0, lane p0 q' `prefix_of` lane p0 (queues s)) ∧
    (scanLanes ps workerId now s1 = (None, with_queues q' s)
     ∨ ∃ taskId ref task,
         taskId ≠ "" ∧ get_task s taskId = Some (ref, task)
         ∧ scanLanes ps workerId now s1
           = (Some (assign_processing workerId now task),
              dispatched taskId ref task workerId now (with_queues q' s)))).
  { destruct (IH s1) as (q' & Hq' & Hres). exists q'. split.
    - intros p0. etrans; [apply Hq'|apply Hpre].
    - done. }
  case_decide; [done|].
  destruct (get_task s1 x) as [[ref task]|] eqn:Hget; [|done].
  exists (set_lane p r (queues s)). split; [apply Hpre|].
  right. exists x, ref, task. by split_and!.
Qed.

(** *** References stay valid *)

Lemma refs_ok_unfold s : refs_ok s ↔ refs_ok_of (objects s) (tasks s) (timers s).
Proof. done. Qed.

Lemma refs_ok_of_preserved h h' m tl :
  preserved fixed_fields h h' → refs_ok_of h m tl → refs_ok_of h' m tl.
Proof.
  intros Hp [Hm Ht]. split.
  - intros taskId ref Hl. destruct (Hm _ _ Hl) as (t & Ho & Hid).
    destruct (Hp _ _ Ho) as (t' & Ho' & Hf). exists t'. split; [done|].
    unfold fixed_fields in Hf. congruence.
  - intros tm Hl. destruct (Ht _ Hl) as (t & Ho & Hid).
    destruct (Hp _ _ Ho) as (t' & Ho' & Hf). exists t'. split; [done|].
    unfold fixed_fields in Hf. congruence.
Qed.

Lemma refs_ok_of_write h m tl ref task task' :
  h !! ref = Some task → fixed_fields task' = fixed_fields task →
  refs_ok_of h m tl → refs_ok_of (<[ref := task']> h) m tl.
Proof. intros Hr Hf. apply refs_ok_of_preserved. by eapply preserved_write. Qed.

Lemma refs_ok_of_alloc h m tl task :
  refs_ok_of h m tl →
  refs_ok_of (h ++ [task]) (<[Task.id task := length h]> m) tl.
Proof.
  intros Hok.
  destruct (refs_ok_of_preserved h (h ++ [task]) m tl
              (preserved_alloc _ _ _) Hok) as [Hm Ht].
  split; [|done]. intros taskId ref.
  rewrite lookup_insert. case_decide as Hid.
  - intros [= <-]. exists task. split; [|done].
    rewrite lookup_app_r by lia. by rewrite Nat.sub_diag.
  - apply Hm.
Qed.

Lemma refs_ok_of_timer_add h m tl taskId ref delay :
  m !! taskId = Some ref →
  refs_ok_of h m tl → refs_ok_of h m (tl ++ [mkTimer ref taskId delay]).
Proof.
  intros Hr [Hm Ht]. split; [done|]. intros tm [Hin|Hin]%elem_of_app.
  - by apply Ht.
  - apply list_elem_of_singleton in Hin as ->. simpl. by apply Hm.
Qed.

Lemma refs_ok_of_timer_delete h m tl i :
  refs_ok_of h m tl → refs_ok_of h m (delete i tl).
Proof.
  intros [Hm Ht]. split; [done|]. intros tm Hin. apply Ht.
  by eapply list_elem_of_delete_inv.
Qed.

Lemma refs_ok_of_clear h m tl : refs_ok_of h m tl → refs_ok_of h ∅ tl.
Proof. intros [Hm Ht]. split; [|done]. intros ? ?. by rewrite lookup_empty. Qed.

Lemma fireTimer_Some i now s tm :
  refs_ok s → timers s !! i = Some tm →
  ∃ task, objects s !! timer_task tm = Some task
    ∧ Task.id task = timer_taskId tm
    ∧ fireTimer i now s
      = emitEvent
          (task_retrying (timer_taskId tm) (Task.retries task)
             (Task.maxRetries task) now)
          (with_stats
             (set_retriedTasks (retriedTasks (stats s) + 1)
                (set_pendingTasks (pendingTasks (stats s) + 1) (stats s)))
             (write_task (timer_task tm) (assign_pending now task)
                (unshift_lane (Task.priority task) (timer_taskId tm)
                   (with_timers (delete i (timers s)) s)))).
Proof.
  intros [_ Ht] Hi.
  destruct (Ht tm) as (task & Ho & Hid); [by eapply list_elem_of_lookup_2|].
  exists task. split_and!; [done..|].
  unfold fireTimer. rewrite Hi. simpl. by rewrite Ho.
Qed.

Lemma step_refs_ok config s op : refs_ok s → refs_ok (step config s op).
Proof.
  intros Hok. pose proof Hok as Hok'. apply refs_ok_unfold in Hok'.
  destruct op as [taskId now taskData priority|workerId now|taskId result now
                 |taskId error now|i now| | | | |]; simpl.
  - apply refs_ok_unfold. simpl.
    by apply (refs_ok_of_alloc _ _ _ (Task.mk taskId _ _ _ _ _ _ _ _ _ _ _ _ _ _ _)).
  - unfold getNextTask.
    destruct (scanLanes_spec [High; Normal; Low] workerId now s)
      as (q' & _ & [-> | (taskId & ref & task & _ & Hg & ->)]); [done|].
    apply get_task_Some in Hg as [Hm Ho].
    apply refs_ok_unfold. simpl. by eapply refs_ok_of_write.
  - unfold completeTask. destruct (get_task s taskId) as [[ref task]|] eqn:Hg; [|done].
    apply get_task_Some in Hg as [Hm Ho].
    apply refs_ok_unfold. simpl. by eapply refs_ok_of_write.
  - unfold failTask. destruct (get_task s taskId) as [[ref task]|] eqn:Hg; [|done].
    apply get_task_Some in Hg as [Hm Ho].
    case_decide; apply refs_ok_unfold; simpl.
    + apply refs_ok_of_timer_add; [done|]. by eapply refs_ok_of_write.
    + by eapply refs_ok_of_write.
  - destruct (timers s !! i) as [tm|] eqn:Hi.
    + destruct (fireTimer_Some i now s tm Hok Hi) as (task & Ho & _ & ->).
      apply refs_ok_unfold. simpl.
      eapply refs_ok_of_write; [done..|]. by apply refs_ok_of_timer_delete.
    + unfold fireTimer. by rewrite Hi.
  - apply refs_ok_unfold. simpl. by eapply refs_ok_of_clear.
  - done.
  - unfold updateWorkerHeartbeat. by destruct (workers s !! workerId).
  - unfold incrementWorkerTaskCount. by destruct (workers s !! workerId).
  - done.
Qed.

Lemma run_refs_ok config ops s : refs_ok s → refs_ok (run config ops s).
Proof.
  revert s. induction ops as [|op ops IH]; intros s Hok; [done|].
  simpl. apply IH. by apply step_refs_ok.
Qed.

Lemma refs_ok_initial : refs_ok initial.
Proof.
  split; simpl; [intros ? ?; by rewrite lookup_empty|].
  intros tm Hin. by inversion Hin.
Qed.

(** Two ids filed under the same object are the same id. *)
Lemma refs_ok_inj s taskId taskId' ref :
  refs_ok s → tasks s !! taskId = Some ref → tasks s !! taskId' = Some ref →
  taskId = taskId'.
Proof.
  intros [Hm _] H1 H2.
  destruct (Hm _ _ H1) as (t & Ho & <-). destruct (Hm _ _ H2) as (t' & Ho' & <-).
  congruence.
Qed.

(** *** The task counters *)

Lemma step_balance config s op :
  refs_ok s → op ≠ ClearAll → balance (step config s op) = balance s.
Proof.
  intros Hok Hop. unfold balance, accounted.
  destruct op as [taskId now taskData priority|workerId now|taskId result now
                 |taskId error now|i now| | | | |]; simpl; try done.
  - lia.
  - unfold getNextTask.
    destruct (scanLanes_spec [High; Normal; Low] workerId now s)
      as (q' & _ & [-> | (taskId & ref & task & _ & _ & ->)]); simpl; lia.
  - unfold completeTask.
    destruct (get_task s taskId) as [[ref task]|]; simpl; lia.
  - unfold failTask. destruct (get_task s taskId) as [[ref task]|]; [|done].
    case_decide; simpl; [rewrite length_app; simpl|]; lia.
  - destruct (timers s !! i) as [tm|] eqn:Hi.
    + destruct (fireTimer_Some i now s tm Hok Hi) as (task & _ & _ & ->). simpl.
      rewrite length_delete by done.
      apply lookup_lt_Some in Hi. lia.
    + unfold fireTimer. by rewrite Hi.
  - unfold updateWorkerHeartbeat. by destruct (workers s !! workerId).
  - unfold incrementWorkerTaskCount. by destruct (workers s !! workerId).
Qed.

Lemma run_balance config ops :
  ClearAll ∉ ops → balance (run config ops initial) = 0.
Proof.
  induction ops as [|op ops IH] using rev_ind; [done|].
  intros Hnc. apply not_elem_of_app in Hnc as [Hnc Hop].
  rewrite run_snoc, step_balance.
  - by apply IH.
  - apply run_refs_ok, refs_ok_initial.
  - intros ->. apply Hop. by apply list_elem_of_singleton.
Qed.

(** ** The counters of the stats *)

(** C2, as the code has it. In every execution without [ClearAll], the
    pending, processing, completed and failed counters plus the number of
    scheduled retries that have not run yet add up to the created counter:
    a task that waits for its retry is in none of the four counters. *)
Theorem stats_accounting config ops :
  ClearAll ∉ ops →
  let s := run config ops initial in
  pendingTasks (getQueueStats s) + processingTasks (getQueueStats s)
    + completedTasks (getQueueStats s) + failedTasks (getQueueStats s)
    + Z.of_nat (length (timers s))
  = tasksCreated (getQueueStats s).
Proof.
  intros Hnc s. pose proof (run_balance config ops Hnc) as Hb.
  unfold balance, accounted in Hb. simpl. fold s in Hb. lia.
Qed.

(** *** The running average *)






(** ** The running average processing time *)


(** *** The retry count of one task *)

Lemma retry_state_preserved s s' taskId ref m k :
  tasks s' = tasks s →
  preserved retry_fields (objects s) (objects s') →
  retry_state s taskId ref m k → retry_state s' taskId ref m k.
Proof.
  intros Ht Hp (Hm & task & Ho & Hmax & Hr). split; [by rewrite Ht|].
  destruct (Hp _ _ Ho) as (task' & Ho' & Hf). exists task'.
  unfold retry_fields in Hf. split_and!; [done|congruence..].
Qed.

Lemma step_retry_state config s op taskId ref m k :
  refs_ok s → 0 ≤ k →
  op ≠ ClearAll → taskId ∉ submitted [op] →
  retry_state s taskId ref m k →
  retry_state (step config s op) taskId ref m (k + fail_calls taskId [op]).
Proof.
  intros Hok Hk Hnc Hns Hrs.
  destruct op as [taskId' now taskData priority|workerId now|taskId' result now
                 |taskId' error now|i now| | | | |]; simpl;
    rewrite ?Z.add_0_r; try done.
  - destruct Hrs as (Hm & task & Ho & Hmax & Hr). split.
    + simpl. rewrite lookup_insert_ne; [done|]. set_solver.
    + exists task. split_and!; [|done..]. simpl.
      rewrite lookup_app_l; [done|]. by eapply lookup_lt_Some.
  - unfold getNextTask.
    destruct (scanLanes_spec [High; Normal; Low] workerId now s)
      as (q' & _ & [-> | (x & ref' & task' & _ & [_ Ho']%get_task_Some & ->)]);
      [done|].
    eapply retry_state_preserved; [| |done]; [done|]. simpl.
    by eapply preserved_write.
  - unfold completeTask.
    destruct (get_task s taskId') as [[ref' task']|] eqn:Hg; [|done].
    apply get_task_Some in Hg as [_ Ho'].
    eapply retry_state_preserved; [| |done]; [done|]. simpl.
    by eapply preserved_write.
  - unfold failTask.
    destruct (get_task s taskId') as [[ref' task']|] eqn:Hg.
    2:{ case_decide as Hid; [|by rewrite Z.add_0_r].
        subst taskId'. destruct Hrs as (Hm & task & Ho & _).
        unfold get_task in Hg. by rewrite Hm, Ho in Hg. }
    apply get_task_Some in Hg as [Hm' Ho'].
    destruct Hrs as (Hm & task & Ho & Hmax & Hr).
    destruct (decide (taskId' = taskId)) as [Hid|Hid].
    + subst taskId'. assert (ref' = ref) as -> by congruence.
      assert (task' = task) as -> by congruence.
      assert (Hlen : (ref < length (objects s))%nat) by by eapply lookup_lt_Some.
      case_decide as Hlt; (split; [done|]); simpl;
        eexists; (split; [by apply list_lookup_insert_eq|]); simpl; lia.
    + assert (ref' ≠ ref).
      { intros ->. apply Hid. by eapply refs_ok_inj. }
      rewrite Z.add_0_r.
      case_decide; (split; [done|]); exists task; simpl;
        by rewrite list_lookup_insert_ne.
  - destruct (timers s !! i) as [tm|] eqn:Hi.
    + destruct (fireTimer_Some i now s tm Hok Hi) as (task' & Ho' & _ & ->).
      eapply retry_state_preserved; [| |done]; [done|]. simpl.
      by eapply preserved_write.
    + unfold fireTimer. by rewrite Hi.
  - unfold updateWorkerHeartbeat. by destruct (workers s !! workerId).
  - unfold incrementWorkerTaskCount. by destruct (workers s !! workerId).
Qed.

Lemma run_retry_state config post taskId ref m :
  ∀ s k, refs_ok s → 0 ≤ k →
    ClearAll ∉ post → taskId ∉ submitted post →
    retry_state s taskId ref m k →
    retry_state (run config post s) taskId ref m (k + fail_calls taskId post).
Proof.
  induction post as [|op post IH]; intros s k Hok Hk Hnc Hns Hrs.
  { simpl. by rewrite Z.add_0_r. }
  apply not_elem_of_cons in Hnc as [Hop Hnc].
  change (op :: post) with ([op] ++ post) in Hns |- *.
  rewrite submitted_app in Hns. apply not_elem_of_app in Hns as [Hns1 Hns].
  rewrite fail_calls_app, Z.add_assoc.
  change (run config ([op] ++ post) s) with (run config post (step config s op)).
  pose proof (fail_calls_nonneg taskId [op]).
  apply IH; [by apply step_refs_ok|lia|done..|].
  by apply step_retry_state.
Qed.

(** ** Backoff and the retry ceiling *)

(** C3. Take a task submitted under [taskId] and any later calls that
    neither clear the queue nor reuse the id, [k] of them [Fail] calls for
    this task; [m] is the task's max-retries.  The task's retry count is then
    [min k (max 0 m)], and the next [Fail] for it, call number [k] counted
    from 0, returns [true] and either finds [k < m], sets the task
    [retrying] and schedules its re-enqueue with delay [retryDelay * 2^k],
    or finds [m <= k], sets the task [failed], counts it as failed and
    schedules nothing.  The task becomes [failed] exactly when its retry
    count has reached its max-retries. *)
Theorem failTask_backoff config pre taskId now0 taskData priority post error now :
  ClearAll ∉ post → taskId ∉ submitted post →
  let s := run config (pre ++ Submit taskId now0 taskData priority :: post) initial in
  let k := fail_calls taskId post in
  let m := or_number (TaskCreateRequest.maxRetries taskData)
                     (WorkerConfig.maxRetries config) in
  let r := failTask config taskId error now s in
  ∃ ref task task',
    get_task s taskId = Some (ref, task)
    ∧ Task.maxRetries task = m
    ∧ Task.retries task = Z.min k (Z.max 0 m)
    ∧ fst r = true
    ∧ get_task (snd r) taskId = Some (ref, task')
    ∧ ((k < m
        ∧ Task.status task' = Retrying
        ∧ Task.retries task' = k + 1
        ∧ timers (snd r)
          = timers s ++ [mkTimer ref taskId (WorkerConfig.retryDelay config * 2 ^ k)])
       ∨ (m ≤ k
          ∧ Task.status task' = Failed
          ∧ Task.retries task' = Task.retries task
          ∧ timers (snd r) = timers s
          ∧ failedTasks (stats (snd r)) = failedTasks (stats s) + 1))
    ∧ (Task.status task' = Failed ↔ Task.maxRetries task ≤ Task.retries task).
Proof.
  intros Hnc Hns s k m r.
  set (s0 := run config pre initial).
  set (ref := length (objects s0)).
  assert (Hs : s = run config post (step config s0 (Submit taskId now0 taskData priority))).
  { unfold s, s0, run. by rewrite foldl_app. }
  assert (Hok0 : refs_ok s0) by apply run_refs_ok, refs_ok_initial.
  assert (Hrs : retry_state s taskId ref m (0 + k)).
  { rewrite Hs. apply run_retry_state; [by apply step_refs_ok|lia|done..|].
    split; [apply lookup_insert_eq|].
    eexists. simpl. split_and!.
    - rewrite lookup_app_r by done. by rewrite Nat.sub_diag.
    - done.
    - simpl. lia. }
  rewrite Z.add_0_l in Hrs. destruct Hrs as (Hm & task & Ho & Hmax & Hr).
  pose proof (fail_calls_nonneg taskId post) as Hk. fold k in Hk.
  assert (Hg : get_task s taskId = Some (ref, task)) by by apply get_task_Some.
  destruct (decide (Task.retries task < Task.maxRetries task)) as [Hlt|Hge].
  - destruct (failTask_retry config s taskId error now ref task Hg Hlt)
      as (Hfst & Htm & (task' & Hg' & Hst & Hr' & Hmax') & _).
    exists ref, task, task'. split_and!; try done.
    + assert (Hrk : Task.retries task = k) by lia.
      left. split_and!; [lia|done|lia|].
      unfold r. by rewrite Htm, Hrk.
    + rewrite Hst. split; [done|lia].
  - destruct (failTask_final config s taskId error now ref task Hg Hge)
      as (Hfst & Htm & (task' & Hg' & Hst & Hr' & Hmax') & Hf & _).
    exists ref, task, task'. split_and!; try done.
    + right. split_and!; [lia|done..].
    + rewrite Hst. split; [lia|done].
Qed.

(** *** The lanes hold stored tasks *)

Lemma step_tasks config s op :
  tasks (step config s op)
  = match op with
    | Submit taskId _ _ _ => <[taskId := length (objects s)]> (tasks s)
    | ClearAll => ∅
    | _ => tasks s
    end.
Proof.
  destruct op as [taskId now taskData priority|workerId now|taskId result now
                 |taskId error now|i now| | |workerId ? ? ?|workerId|]; simpl; try done.
  - unfold getNextTask.
    by destruct (scanLanes_spec [High; Normal; Low] workerId now s)
      as (q' & _ & [-> | (x & ref & task & _ & _ & ->)]).
  - unfold completeTask. by destruct (get_task s taskId) as [[ref task]|].
  - unfold failTask. destruct (get_task s taskId) as [[ref task]|]; [|done].
    by case_decide.
  - unfold fireTimer. destruct (timers s !! i) as [tm|]; [|done]. simpl.
    by destruct (objects s !! timer_task tm).
  - unfold updateWorkerHeartbeat. by destruct (workers s !! workerId).
  - unfold incrementWorkerTaskCount. by destruct (workers s !! workerId).
Qed.

(** A step keeps the lanes in order when it keeps the store entries and the
    fixed fields of the objects, and every id or timer it adds is for a
    stored task of the right lane. *)
Lemma lanes_ok_frame s s' :
  lanes_ok s →
  tasks s' !! "" = None →
  (∀ taskId ref, tasks s !! taskId = Some ref → tasks s' !! taskId = Some ref) →
  preserved fixed_fields (objects s) (objects s') →
  (∀ p taskId, taskId ∈ lane p (queues s') →
     taskId ∈ lane p (queues s)
     ∨ ∃ ref task, get_task s' taskId = Some (ref, task) ∧ Task.priority task = p) →
  (∀ tm, tm ∈ timers s' →
     tm ∈ timers s ∨ tasks s' !! timer_taskId tm = Some (timer_task tm)) →
  lanes_ok s'.
Proof.
  intros (He & Hl & Ht) He' Hm Hp Hl' Ht'. split_and!; [done| |].
  - intros p taskId Hin. destruct (Hl' _ _ Hin) as [Hold|Hnew]; [|done].
    destruct (Hl _ _ Hold) as (ref & task & [Hr Ho]%get_task_Some & Hpr).
    destruct (Hp _ _ Ho) as (task' & Ho' & Hf).
    exists ref, task'. split; [apply get_task_Some; auto|].
    unfold fixed_fields in Hf. congruence.
  - intros tm Hin. destruct (Ht' _ Hin) as [Hold|Hnew]; [|done]. auto.
Qed.

Lemma step_lanes_ok config s op :
  refs_ok s → lanes_ok s →
  op ≠ ClearAll →
  (∀ taskId, taskId ∈ submitted [op] → taskId ≠ "" ∧ tasks s !! taskId = None) →
  lanes_ok (step config s op).
Proof.
  intros Hok Hlo Hnc Hfresh. pose proof Hlo as (He & Hl & Ht).
  destruct op as [taskId now taskData priority|workerId now|taskId result now
                 |taskId error now|i now| | |workerId ? ? ?|workerId|];
    [| | | | |done|done| | |done].
  - destruct (Hfresh taskId) as [Hne Hnew]; [by constructor|].
    apply (lanes_ok_frame s); [done|..].
    + rewrite step_tasks. by rewrite lookup_insert_ne.
    + intros x ref Hx. rewrite step_tasks. rewrite lookup_insert_ne; [done|].
      intros <-. congruence.
    + apply preserved_alloc.
    + intros p x Hin. simpl in Hin.
      destruct (decide (default Normal priority = p)) as [<-|Hp].
      * rewrite lane_set_lane in Hin. apply elem_of_cons in Hin as [->|Hin]; [|by left].
        right. eexists _, _. split; [apply (addTask_get_task config)|done].
      * rewrite lane_set_lane_ne in Hin by done. by left.
    + intros tm Hin. by left.
  - simpl. unfold getNextTask.
    destruct (scanLanes_spec [High; Normal; Low] workerId now s)
      as (q' & Hq' & [-> | (x & ref & task & _ & [_ Ho]%get_task_Some & ->)]).
    + apply (lanes_ok_frame s); [done..|apply preserved_refl| |by left].
      intros p x Hin. left. by eapply elem_of_prefix.
    + apply (lanes_ok_frame s); [done..| | |by left].
      * simpl. by eapply preserved_write.
      * intros p x' Hin. left. by eapply elem_of_prefix.
  - simpl. unfold completeTask.
    destruct (get_task s taskId) as [[ref task]|] eqn:Hg; [|done].
    apply get_task_Some in Hg as [_ Ho].
    apply (lanes_ok_frame s); [done..| |by left|by left].
    simpl. by eapply preserved_write.
  - simpl. unfold failTask.
    destruct (get_task s taskId) as [[ref task]|] eqn:Hg; [|done].
    apply get_task_Some in Hg as [Hm Ho].
    case_decide.
    + apply (lanes_ok_frame s); [done..| |by left|].
      * simpl. by eapply preserved_write.
      * simpl. intros tm [Hin|Hin]%elem_of_app; [by left|].
        apply list_elem_of_singleton in Hin as ->. by right.
    + apply (lanes_ok_frame s); [done..| |by left|by left].
      simpl. by eapply preserved_write.
  - simpl. destruct (timers s !! i) as [tm|] eqn:Hi.
    2:{ unfold fireTimer. by rewrite Hi. }
    destruct (fireTimer_Some i now s tm Hok Hi) as (task & Ho & Hid & ->).
    assert (Hm : tasks s !! timer_taskId tm = Some (timer_task tm)).
    { apply Ht. by eapply list_elem_of_lookup_2. }
    apply (lanes_ok_frame s); [done..| | |].
    + simpl. by eapply preserved_write.
    + intros p x Hin. simpl in Hin.
      destruct (decide (Task.priority task = p)) as [<-|Hp].
      * rewrite lane_set_lane in Hin. apply elem_of_cons in Hin as [->|Hin]; [|by left].
        right. exists (timer_task tm), (assign_pending now task).
        split; [|done]. apply get_task_Some. split; [done|]. simpl.
        apply list_lookup_insert_eq. by eapply lookup_lt_Some.
      * rewrite lane_set_lane_ne in Hin by done. by left.
    + simpl. intros tm' Hin. left. by eapply list_elem_of_delete_inv.
  - simpl. unfold updateWorkerHeartbeat. by destruct (workers s !! workerId).
  - simpl. unfold incrementWorkerTaskCount. by destruct (workers s !! workerId).
Qed.

(** In an execution without [ClearAll] in which every submission gets a
    fresh, non-empty id, the lanes are in order and the store holds
    submitted ids only. *)
Lemma run_lanes_ok config ops :
  ClearAll ∉ ops → NoDup (submitted ops) → "" ∉ submitted ops →
  lanes_ok (run config ops initial)
  ∧ (∀ taskId, is_Some (tasks (run config ops initial) !! taskId) →
       taskId ∈ submitted ops).
Proof.
  induction ops as [|op ops IH] using rev_ind; intros Hnc Hnd Hne.
  { split.
    - split_and!; [done|intros p x Hin; destruct p; by inversion Hin|].
      intros tm Hin. by inversion Hin.
    - intros x [? Hx]. simpl in Hx. by rewrite lookup_empty in Hx. }
  apply not_elem_of_app in Hnc as [Hnc Hop].
  rewrite submitted_app in Hnd, Hne |- *.
  apply NoDup_app in Hnd as (Hnd & Hdisj & _).
  apply not_elem_of_app in Hne as [Hne Hne'].
  destruct (IH Hnc Hnd Hne) as [Hlo Hdom].
  assert (Hop' : op ≠ ClearAll).
  { intros ->. apply Hop. by apply list_elem_of_singleton. }
  rewrite run_snoc. split.
  - apply step_lanes_ok; [apply run_refs_ok, refs_ok_initial|done..|].
    intros x Hx. split; [by intros ->|].
    destruct (tasks (run config ops initial) !! x) eqn:Hl; [|done].
    exfalso. eapply Hdisj; [|done]. apply Hdom. by rewrite Hl.
  - intros x. rewrite step_tasks. rewrite elem_of_app.
    destruct op; try (by intros; left; apply Hdom).
    rewrite lookup_insert. case_decide as Hx.
    + subst. intros _. right. by constructor.
    + intros. left. by apply Hdom.
Qed.

Lemma waiting_nil p s : waiting p s = [] ↔ lane p (queues s) = [].
Proof.
  unfold waiting. split; [|by intros ->].
  intros H. apply (f_equal reverse) in H. by rewrite reverse_involutive in H.
Qed.

Lemma waiting_cons p s x rest :
  waiting p s = x :: rest ↔ lane p (queues s) = reverse rest ++ [x].
Proof.
  unfold waiting. split; intros H.
  - apply (f_equal reverse) in H.
    by rewrite reverse_involutive, reverse_cons in H.
  - by rewrite H, reverse_snoc, reverse_involutive.
Qed.

(** ** Priority and FIFO order *)

(** C1. Take an execution without [ClearAll] in which every submission got
    a fresh, non-empty id, and read each lane oldest entry first.
    - [getNextTask] returns no task and changes nothing when the three lanes
      are empty; otherwise it returns the task whose id is the oldest entry
      of the first non-empty lane in the order high, normal, low: a task of
      that priority, now [processing] for the calling worker, removed from
      the front of its lane and appended to the in-flight list, the other
      lanes being as before.
    - [addTask] puts the new id behind all entries of its lane.
    - a retry timer that fires puts the id of its task behind all entries of
      the task's lane at that time.
    - every other call except [clearAll] leaves the lanes as they are. *)
Theorem fetch_order config ops :
  ClearAll ∉ ops → NoDup (submitted ops) → "" ∉ submitted ops →
  let s := run config ops initial in
  (∀ workerId now,
     ((∀ q, waiting q s = []) → getNextTask workerId now s = (None, s))
     ∧ (∀ higher p lower x rest,
          higher ++ p :: lower = [High; Normal; Low] →
          (∀ q, q ∈ higher → waiting q s = []) →
          waiting p s = x :: rest →
          ∃ ref task s',
            getNextTask workerId now s = (Some task, s')
            ∧ Task.id task = x
            ∧ Task.priority task = p
            ∧ Task.status task = Processing
            ∧ Task.workerId task = Some workerId
            ∧ get_task s' x = Some (ref, task)
            ∧ waiting p s' = rest
            ∧ (∀ q, q ≠ p → waiting q s' = waiting q s)
            ∧ processing s' = processing s ++ [x]))
  ∧ (∀ taskId now taskData priority,
       let p := default Normal priority in
       let s' := snd (addTask config taskId now taskData priority s) in
       waiting p s' = waiting p s ++ [taskId]
       ∧ (∀ q, q ≠ p → waiting q s' = waiting q s))
  ∧ (∀ i now tm,
       timers s !! i = Some tm →
       ∃ task,
         get_task s (timer_taskId tm) = Some (timer_task tm, task)
         ∧ let p := Task.priority task in
           let s' := fireTimer i now s in
           waiting p s' = waiting p s ++ [timer_taskId tm]
           ∧ (∀ q, q ≠ p → waiting q s' = waiting q s))
  ∧ (∀ op,
       match op with
       | Submit _ _ _ _ | FetchNext _ _ | TimerFires _ _ | ClearAll => True
       | _ => queues (step config s op) = queues s
       end).
Proof.
  intros Hnc Hnd Hne s.
  destruct (run_lanes_ok config ops Hnc Hnd Hne) as [(He & Hl & Ht) _].
  fold s in He, Hl, Ht.
  assert (Hok : refs_ok s) by apply run_refs_ok, refs_ok_initial.
  split_and!.
  - intros workerId now. split.
    + intros Hempty. unfold getNextTask.
      rewrite <- (app_nil_r [High; Normal; Low]).
      rewrite scanLanes_skip_empty; [done|].
      intros q _. by apply waiting_nil.
    + intros higher p lower x rest Hsplit Hhigher Hw.
      apply waiting_cons in Hw.
      destruct (Hl p x) as (ref & task & Hg & Hp).
      { rewrite Hw. apply elem_of_app. right. by constructor. }
      pose proof Hg as [Hm Ho]%get_task_Some.
      destruct Hok as [Hids _]. destruct (Hids _ _ Hm) as (task0 & Ho0 & Hid).
      assert (task0 = task) as -> by congruence.
      assert (Hx : x ≠ "") by (intros ->; congruence).
      eexists ref, _, _. split_and!.
      * unfold getNextTask. rewrite <- Hsplit.
        rewrite scanLanes_skip_empty by (intros q Hq; by apply waiting_nil, Hhigher).
        simpl. rewrite Hw, pop_snoc. rewrite decide_False by done.
        change (get_task (with_queues _ s) x) with (get_task s x).
        rewrite Hg. done.
      * done.
      * done.
      * done.
      * done.
      * apply get_task_Some. simpl. split; [done|].
        apply list_lookup_insert_eq. by eapply lookup_lt_Some.
      * unfold waiting. simpl. by rewrite lane_set_lane, reverse_involutive.
      * intros q Hq. unfold waiting. simpl. by rewrite lane_set_lane_ne.
      * done.
  - intros taskId now taskData priority p s'. split.
    + unfold s', waiting. simpl. by rewrite lane_set_lane, reverse_cons.
    + intros q Hq. unfold s', waiting. simpl. by rewrite lane_set_lane_ne.
  - intros i now tm Hi.
    assert (Hm : tasks s !! timer_taskId tm = Some (timer_task tm)).
    { apply Ht. by eapply list_elem_of_lookup_2. }
    destruct (fireTimer_Some i now s tm Hok Hi) as (task & Ho & Hid & Hfire).
    exists task. split; [by apply get_task_Some|].
    intros p s'. unfold s'. rewrite Hfire. split.
    + unfold waiting. simpl. by rewrite lane_set_lane, reverse_cons.
    + intros q Hq. unfold waiting. simpl. by rewrite lane_set_lane_ne.
  - intros [taskId ? ? ?|? ?|taskId result now|taskId error now|? ?|
            |? ? ?|workerId ? ? ?|workerId|? ?]; simpl; try done.
    + unfold completeTask. by destruct (get_task s taskId) as [[ref task]|].
    + unfold failTask. destruct (get_task s taskId) as [[ref task]|]; [|done].
      by case_decide.
    + unfold updateWorkerHeartbeat. by destruct (workers s !! workerId).
    + unfold incrementWorkerTaskCount. by destruct (workers s !! workerId).
Qed.

(** ** The theorems on concrete executions *)

(** [fetch_order] on a queue holding one low, one high and two normal tasks:
    the first fetch returns the high-priority task. *)
Lemma fetch_order_witness :
  let ops := [Submit "low1" 0 email (Some Low);
              Submit "high1" 1 email (Some High);
              Submit "n1" 2 email None;
              Submit "n2" 3 email None] in
  let s := run (default_worker 4) ops initial in
  (ClearAll ∉ ops) ∧ NoDup (submitted ops) ∧ ("" ∉ submitted ops)
  ∧ ∃ task s', getNextTask "worker-1" 10 s = (Some task, s')
               ∧ Task.id task = "high1" ∧ Task.priority task = High
               ∧ waiting High s' = [] ∧ waiting Normal s' = ["n1"; "n2"].
Proof.
  intros ops s.
  assert (H1 : ClearAll ∉ ops) by by_computation.
  assert (H2 : NoDup (submitted ops)) by by_computation.
  assert (H3 : "" ∉ submitted ops) by by_computation.
  split_and!; [done..|].
  destruct (fetch_order (default_worker 4) ops H1 H2 H3) as (Hfetch & _).
  destruct (Hfetch "worker-1" 10) as (_ & Hhit).
  destruct (Hhit [] High [Normal; Low] "high1" [] eq_refl)
    as (ref & task & s' & Hget & Hid & Hp & _ & _ & _ & Hw & Hothers & _).
  - intros q Hq. inversion Hq.
  - vm_compute. reflexivity.
  - exists task, s'. split_and!; [done..|].
    rewrite (Hothers Normal) by discriminate. vm_compute. reflexivity.
Defined.

(** [stats_accounting] while [t1] waits for its retry. *)
Lemma stats_accounting_witness :
  let s := run (default_worker 4) one_failure initial in
  (ClearAll ∉ one_failure)
  ∧ pendingTasks (getQueueStats s) + processingTasks (getQueueStats s)
      + completedTasks (getQueueStats s) + failedTasks (getQueueStats s)
      + Z.of_nat (length (timers s))
    = tasksCreated (getQueueStats s).
Proof.
  intros s.
  assert (H1 : ClearAll ∉ one_failure) by by_computation.
  split; [exact H1|]. exact (stats_accounting (default_worker 4) one_failure H1).
Defined.

(** The claim of C2 as it is written fails while [t1] waits for its retry:
    no call cleared the queue, the task is [retrying], one task was created
    and the four counters add up to 0. *)
Lemma stats_accounting_counterexample :
  let s := run (default_worker 4) one_failure initial in
  (ClearAll ∉ one_failure)
  ∧ Task.status ∘ snd <$> get_task s "t1" = Some Retrying
  ∧ pendingTasks (getQueueStats s) + processingTasks (getQueueStats s)
      + completedTasks (getQueueStats s) + failedTasks (getQueueStats s)
    ≠ tasksCreated (getQueueStats s).
Proof.
  intros s. split_and!.
  - by_computation.
  - vm_compute. reflexivity.
  - vm_compute. discriminate.
Qed.

(** [failTask_backoff] for a task with [maxRetries: 2] that has failed once
    and was fetched again after its retry: the second failure schedules the
    re-enqueue with delay 1000 * 2^1. *)
Lemma failTask_backoff_witness :
  let config := default_worker 4 in
  let post := [FetchNext "worker-1" 1; Fail "t1" "boom" 2;
               TimerFires 0 1002; FetchNext "worker-1" 1003] in
  let s := run config ([] ++ Submit "t1" 0 email_two_retries None :: post) initial in
  (ClearAll ∉ post) ∧ ("t1" ∉ submitted post)
  ∧ ∃ ref, timers (snd (failTask config "t1" "boom again" 1004 s))
           = timers s ++ [mkTimer ref "t1" 2000].
Proof.
  intros config post s.
  assert (H1 : ClearAll ∉ post) by by_computation.
  assert (H2 : "t1" ∉ submitted post) by by_computation.
  split_and!; [done..|].
  destruct (failTask_backoff config [] "t1" 0 email_two_retries None post
              "boom again" 1004 H1 H2)
    as (ref & task & task' & _ & _ & _ & _ & _ & [(_ & _ & _ & Htm)|(Hk & _)] & _).
  - exists ref. exact Htm.
  - exfalso. apply Hk. reflexivity.
Defined.


(** The claim of C5 as it is written fails when a respawned worker
    registers again under its id: the counter says 2, the registry holds one
    record, and [clearAll] reports 1. *)
Lemma clearAll_activeWorkers_counterexample :
  let pid n := Worker.mkPartial None None None None None None (Some n) in
  let s := run (default_worker 4)
             [RegisterWorker "worker-1" (pid 4001) 0;
              RegisterWorker "worker-1" (pid 4002) 9000] initial in
  activeWorkers (getQueueStats s) = 2
  ∧ activeWorkers (getQueueStats (clearAll s)) = 1
  ∧ activeWorkers (getQueueStats (clearAll s)) ≠ activeWorkers (getQueueStats s).
Proof.
  intros pid s. split_and!.
  - vm_compute. reflexivity.
  - vm_compute. reflexivity.
  - vm_compute. discriminate.
Qed.

(** [complete_fail_unknown_id] for an id that was never submitted. *)
Lemma complete_fail_unknown_id_witness :
  let config := default_worker 4 in
  let s := run config [Submit "t1" 0 email None] initial in
  tasks s !! "bogus" = None
  ∧ completeTask "bogus" "done" 5 s = (false, s)
  ∧ failTask config "bogus" "boom" 5 s = (false, s).
Proof.
  intros config s.
  assert (H : tasks s !! "bogus" = None) by (vm_compute; reflexivity).
  split; [exact H|].
  exact (complete_fail_unknown_id config s "bogus" "done" "boom" 5 H).
Defined.

(** [getNextTask_drops_stale_id] after the queue was cleared during a retry
    delay: the stale [t1] is the oldest normal entry, so the call skips the
    live normal task [t3] behind it and returns the low-priority [t2]. *)
Lemma getNextTask_drops_stale_id_witness :
  let s := run (default_worker 4) stale_then_live initial in
  let r := getNextTask "worker-1" 1050 s in
  [High] ++ Normal :: [Low] = [High; Normal; Low]
  ∧ (∀ q, q ∈ [High] → lane q (queues s) = [])
  ∧ lane Normal (queues s) = ["t3"] ++ ["t1"]
  ∧ tasks s !! "t1" = None
  ∧ Task.id <$> fst r = Some "t2"
  ∧ lane Normal (queues (snd r)) = ["t3"].
Proof.
  intros s r.
  assert (H2 : ∀ q, q ∈ [High] → lane q (queues s) = []).
  { intros q Hq. apply list_elem_of_singleton in Hq. subst q.
    vm_compute. reflexivity. }
  assert (H3 : lane Normal (queues s) = ["t3"] ++ ["t1"]) by (vm_compute; reflexivity).
  assert (H4 : tasks s !! "t1" = None) by (vm_compute; reflexivity).
  split_and!; [done..| |];
    destruct (getNextTask_drops_stale_id [High] Normal [Low] "worker-1" 1050 s
                "t1" ["t3"] eq_refl H2 H3 H4) as (Hr & Hlane & _).
  - fold r in Hr. rewrite Hr. vm_compute. reflexivity.
  - exact Hlane.
Defined.

(** [unregister_unknown_worker] on a fresh queue manager. *)
Lemma unregister_unknown_worker_witness :
  let s' := unregisterWorker "ghost" 7 initial in
  workers initial !! "ghost" = None
  ∧ activeWorkers (stats s') = activeWorkers (stats initial) - 1
  ∧ emitted s' = emitted initial ++ [worker_unregistered "ghost" 7]
  ∧ workers s' = workers initial.
Proof.
  intros s'.
  assert (H : workers initial !! "ghost" = None) by reflexivity.
  split; [exact H|].
  destruct (unregister_unknown_worker (default_worker 4) initial "ghost" 7
              "done" "boom" H) as (H1 & H2 & H3 & _).
  by split_and!.
Defined.

(** ** More on the counters *)

Lemma count_events_app kind es es' :
  count_events kind (es ++ es') = count_events kind es + count_events kind es'.
Proof. induction es as [|e es IH]; simpl; [done|]. rewrite IH. lia. Qed.

Lemma splice_out_length x l : (length l ≤ S (length (splice_out x l)))%nat.
Proof.
  unfold splice_out, indexOf.
  destruct (list_find (λ y, y = x) l) as [[i y]|] eqn:Hf.
  - apply list_find_Some in Hf as (Hi & _ & _).
    rewrite decide_True by lia. rewrite Nat2Z.id.
    rewrite length_delete by eauto. lia.
  - rewrite decide_False by lia. lia.
Qed.

Lemma totalQueued_queued s : totalQueued (getQueueStats s) = queued (queues s).
Proof. unfold totalQueued, queued. simpl. lia. Qed.

Lemma queued_set_lane p l q :
  queued (set_lane p l q)
  = queued q - Z.of_nat (length (lane p q)) + Z.of_nat (length l).
Proof. unfold queued. destruct p; simpl; lia. Qed.

Lemma queued_unshift p x q : queued (set_lane p (x :: lane p q) q) = queued q + 1.
Proof. rewrite queued_set_lane. simpl length. lia. Qed.

Lemma queued_pop p x r q : lane p q = r ++ [x] → queued (set_lane p r q) = queued q - 1.
Proof. intros H. rewrite queued_set_lane, H, length_app. simpl length. lia. Qed.

(** What a scan does to the number of queued ids and the pending counter. *)
Lemma scanLanes_queued ps workerId now s :
  let r := scanLanes ps workerId now s in
  queued (queues (snd r)) - pendingTasks (stats (snd r))
  ≤ queued (queues s) - pendingTasks (stats s).
Proof.
  revert s. induction ps as [|p ps IH]; intros s; simpl; [lia|].
  destruct (pop (lane p (queues s))) as [[x r]|] eqn:Hpop; [|apply IH].
  apply pop_Some in Hpop. apply queued_pop in Hpop.
  pose proof (IH (with_queues (set_lane p r (queues s)) s)) as IH1.
  simpl in IH1.
  case_decide; [lia|].
  destruct (get_task _ x) as [[ref task]|]; [|lia].
  simpl. lia.
Qed.

Lemma scanLanes_queued_live ps workerId now s :
  refs_ok s → live_ids s →
  let r := scanLanes ps workerId now s in
  queued (queues (snd r)) - pendingTasks (stats (snd r))
  = queued (queues s) - pendingTasks (stats s).
Proof.
  intros [Hrefs _] (He & Hl & _). simpl.
  induction ps as [|p ps IH]; simpl; [done|].
  destruct (pop (lane p (queues s))) as [[x r]|] eqn:Hpop; [|apply IH].
  apply pop_Some in Hpop.
  destruct (Hl p x) as [ref Hm].
  { rewrite Hpop. apply elem_of_app. right. by constructor. }
  destruct (Hrefs _ _ Hm) as (task & Ho & _).
  rewrite decide_False by (intros ->; congruence).
  assert (Hg : get_task (with_queues (set_lane p r (queues s)) s) x = Some (ref, task)).
  { by apply get_task_Some. }
  rewrite Hg. simpl. apply queued_pop in Hpop. lia.
Qed.

Lemma step_queued config s op :
  queued (queues s) ≤ pendingTasks (stats s) →
  queued (queues (step config s op)) ≤ pendingTasks (stats (step config s op)).
Proof.
  intros H.
  destruct op as [taskId now taskData priority|workerId now|taskId result now
                 |taskId error now|i now| | |workerId ? ? ?|workerId|]; simpl;
    try done.
  - rewrite queued_unshift. lia.
  - pose proof (scanLanes_queued [High; Normal; Low] workerId now s) as Hs.
    cbv zeta in Hs. unfold getNextTask. lia.
  - unfold completeTask. by destruct (get_task s taskId) as [[ref task]|].
  - unfold failTask. destruct (get_task s taskId) as [[ref task]|]; [|done].
    by case_decide.
  - unfold fireTimer. destruct (timers s !! i) as [tm|]; [|done]. simpl.
    destruct (objects s !! timer_task tm) as [task|]; [|done].
    simpl. rewrite queued_unshift. lia.
  - unfold updateWorkerHeartbeat. by destruct (workers s !! workerId).
  - unfold incrementWorkerTaskCount. by destruct (workers s !! workerId).
Qed.

(** X1. In every execution the pending counter is at least the number of
    queued ids: [getQueueStats] never reports more ids in the three lanes
    than [pendingTasks]. *)
Theorem pending_covers_queued config ops :
  let st := getQueueStats (run config ops initial) in
  totalQueued st ≤ pendingTasks st.
Proof.
  intros st. unfold st. rewrite totalQueued_queued. simpl.
  induction ops as [|op ops IH] using rev_ind; [done|].
  rewrite run_snoc. by apply step_queued.
Qed.

Lemma step_live_ids config s op :
  refs_ok s → live_ids s →
  op ≠ ClearAll → "" ∉ submitted [op] →
  live_ids (step config s op).
Proof.
  intros Hok (He & Hl & Ht) Hnc Hne.
  assert (Hframe : ∀ s',
    tasks s' = tasks s →
    (∀ p x, x ∈ lane p (queues s') →
       x ∈ lane p (queues s) ∨ is_Some (tasks s !! x)) →
    (∀ tm, tm ∈ timers s' →
       tm ∈ timers s ∨ is_Some (tasks s !! timer_taskId tm)) →
    live_ids s').
  { intros s' Hm Hl' Ht'. split_and!; rewrite ?Hm; [done| |].
    - intros p x Hx. destruct (Hl' _ _ Hx); eauto.
    - intros tm Hx. destruct (Ht' _ Hx); eauto. }
  destruct op as [taskId now taskData priority|workerId now|taskId result now
                 |taskId error now|i now| | |workerId ? ? ?|workerId|];
    [| | | | |done|done| | |done].
  - assert (taskId ≠ "") by (intros ->; apply Hne; by constructor).
    split_and!; simpl.
    + by rewrite lookup_insert_ne.
    + intros p x Hx. rewrite lookup_insert. case_decide; [done|].
      apply Hl with p. destruct (decide (default Normal priority = p)) as [<-|].
      * rewrite lane_set_lane in Hx. apply elem_of_cons in Hx as [->|Hx]; done.
      * by rewrite lane_set_lane_ne in Hx.
    + intros tm Hx. rewrite lookup_insert. case_decide; [done|]. by apply Ht.
  - simpl. unfold getNextTask.
    destruct (scanLanes_spec [High; Normal; Low] workerId now s)
      as (q' & Hq' & [-> | (x & ref & task & _ & _ & ->)]);
      (apply Hframe; [done| |by left]);
      intros p y Hy; left; by eapply elem_of_prefix.
  - simpl. unfold completeTask.
    destruct (get_task s taskId) as [[ref task]|]; [|done].
    apply Hframe; [done|by left|by left].
  - simpl. unfold failTask.
    destruct (get_task s taskId) as [[ref task]|] eqn:Hg; [|done].
    apply get_task_Some in Hg as [Hm _].
    case_decide; (apply Hframe; [done|by left|]); [|by left].
    simpl. intros tm [Hin|Hin]%elem_of_app; [by left|].
    apply list_elem_of_singleton in Hin as ->. right. simpl. by rewrite Hm.
  - simpl. destruct (timers s !! i) as [tm|] eqn:Hi.
    2:{ unfold fireTimer. by rewrite Hi. }
    destruct (fireTimer_Some i now s tm Hok Hi) as (task & Ho & Hid & ->).
    apply Hframe; [done| |].
    + intros p x Hx. simpl in Hx.
      destruct (decide (Task.priority task = p)) as [<-|].
      * rewrite lane_set_lane in Hx. apply elem_of_cons in Hx as [->|Hx]; [|by left].
        right. apply Ht. by eapply list_elem_of_lookup_2.
      * rewrite lane_set_lane_ne in Hx by done. by left.
    + simpl. intros tm' Hx. left. by eapply list_elem_of_delete_inv.
  - simpl. unfold updateWorkerHeartbeat. by destruct (workers s !! workerId).
  - simpl. unfold incrementWorkerTaskCount. by destruct (workers s !! workerId).
Qed.

Lemma step_queued_live config s op :
  refs_ok s → live_ids s → op ≠ ClearAll →
  queued (queues (step config s op)) - pendingTasks (stats (step config s op))
  = queued (queues s) - pendingTasks (stats s).
Proof.
  intros Hok Hlive Hnc.
  destruct op as [taskId now taskData priority|workerId now|taskId result now
                 |taskId error now|i now| | |workerId ? ? ?|workerId|]; simpl;
    try done.
  - rewrite queued_unshift. lia.
  - by apply scanLanes_queued_live.
  - unfold completeTask. by destruct (get_task s taskId) as [[ref task]|].
  - unfold failTask. destruct (get_task s taskId) as [[ref task]|]; [|done].
    by case_decide.
  - destruct (timers s !! i) as [tm|] eqn:Hi.
    2:{ unfold fireTimer. by rewrite Hi. }
    destruct (fireTimer_Some i now s tm Hok Hi) as (task & Ho & Hid & ->).
    simpl. rewrite queued_unshift. lia.
  - unfold updateWorkerHeartbeat. by destruct (workers s !! workerId).
  - unfold incrementWorkerTaskCount. by destruct (workers s !! workerId).
Qed.

Lemma run_queued_live config ops :
  ClearAll ∉ ops → "" ∉ submitted ops →
  live_ids (run config ops initial)
  ∧ queued (queues (run config ops initial))
    = pendingTasks (stats (run config ops initial)).
Proof.
  induction ops as [|op ops IH] using rev_ind; intros Hnc Hne.
  { split; [|done]. split_and!; [done|intros p x Hx; destruct p; by inversion Hx|].
    intros tm Hx. by inversion Hx. }
  apply not_elem_of_app in Hnc as [Hnc Hop].
  rewrite submitted_app in Hne. apply not_elem_of_app in Hne as [Hne Hne'].
  destruct (IH Hnc Hne) as [Hlive Heq].
  assert (Hop' : op ≠ ClearAll).
  { intros ->. apply Hop. by constructor. }
  assert (Hok : refs_ok (run config ops initial)) by apply run_refs_ok, refs_ok_initial.
  rewrite run_snoc. split; [by apply step_live_ids|].
  pose proof (step_queued_live config _ op Hok Hlive Hop'). lia.
Qed.

(** X2. In an execution without [ClearAll] in which no task got the empty
    id, the pending counter is exactly the number of queued ids: the sum of
    the three reported lane lengths equals [pendingTasks]. *)
Theorem pending_is_queued config ops :
  ClearAll ∉ ops → "" ∉ submitted ops →
  let st := getQueueStats (run config ops initial) in
  totalQueued st = pendingTasks st.
Proof.
  intros Hnc Hne st. unfold st. rewrite totalQueued_queued.
  by apply run_queued_live.
Qed.

Lemma step_in_flight config s op :
  processingTasks (stats s) ≤ Z.of_nat (length (processing s)) →
  processingTasks (stats (step config s op))
  ≤ Z.of_nat (length (processing (step config s op))).
Proof.
  intros H.
  destruct op as [taskId now taskData priority|workerId now|taskId result now
                 |taskId error now|i now| | |workerId ? ? ?|workerId|]; simpl;
    try done.
  - unfold getNextTask.
    destruct (scanLanes_spec [High; Normal; Low] workerId now s)
      as (q' & _ & [-> | (x & ref & task & _ & _ & ->)]); simpl; [done|].
    rewrite length_app. simpl. lia.
  - unfold completeTask. destruct (get_task s taskId) as [[ref task]|]; [|done].
    simpl. pose proof (splice_out_length taskId (processing s)). lia.
  - unfold failTask. destruct (get_task s taskId) as [[ref task]|]; [|done].
    pose proof (splice_out_length taskId (processing s)).
    case_decide; simpl; lia.
  - unfold fireTimer. destruct (timers s !! i) as [tm|]; [|done]. simpl.
    by destruct (objects s !! timer_task tm).
  - unfold updateWorkerHeartbeat. by destruct (workers s !! workerId).
  - unfold incrementWorkerTaskCount. by destruct (workers s !! workerId).
Qed.

(** X3. In every execution the processing counter is at most the length of
    the in-flight list: [getQueueStats] never reports [processingTasks]
    above [processingCount]. *)
Theorem processing_within_in_flight config ops :
  let st := getQueueStats (run config ops initial) in
  processingTasks st ≤ processingCount st.
Proof.
  simpl. induction ops as [|op ops IH] using rev_ind; [done|].
  rewrite run_snoc. by apply step_in_flight.
Qed.

(** *** The counters and the event log *)

Lemma step_counters_match config s op :
  op ≠ ClearAll → counters_match s → counters_match (step config s op).
Proof.
  intros Hnc (H1 & H2 & H3 & H4 & H5). unfold counters_match.
  destruct op as [taskId now taskData priority|workerId now|taskId result now
                 |taskId error now|i now| | |workerId ? ? ?|workerId|]; simpl;
    try done.
  - rewrite !count_events_app. simpl. lia.
  - unfold getNextTask.
    destruct (scanLanes_spec [High; Normal; Low] workerId now s)
      as (q' & _ & [-> | (x & ref & task & _ & _ & ->)]); simpl; [done|].
    rewrite !count_events_app. simpl. lia.
  - unfold completeTask. destruct (get_task s taskId) as [[ref task]|]; [|done].
    simpl. rewrite !count_events_app. simpl. lia.
  - unfold failTask. destruct (get_task s taskId) as [[ref task]|]; [|done].
    case_decide; simpl; [done|]. rewrite !count_events_app. simpl. lia.
  - unfold fireTimer. destruct (timers s !! i) as [tm|]; [|done]. simpl.
    destruct (objects s !! timer_task tm) as [task|]; [|done]. simpl.
    rewrite !count_events_app. simpl. lia.
  - rewrite !count_events_app. simpl. lia.
  - unfold updateWorkerHeartbeat. by destruct (workers s !! workerId).
  - unfold incrementWorkerTaskCount. by destruct (workers s !! workerId).
  - rewrite !count_events_app. simpl. lia.
Qed.

Lemma step_tasksCreated config s op :
  op ≠ ClearAll →
  tasksCreated (stats (step config s op))
  = tasksCreated (stats s) + Z.of_nat (length (submitted [op])).
Proof.
  intros Hnc.
  destruct op as [taskId now taskData priority|workerId now|taskId result now
                 |taskId error now|i now| | |workerId ? ? ?|workerId|]; simpl;
    try done; try lia.
  - unfold getNextTask.
    destruct (scanLanes_spec [High; Normal; Low] workerId now s)
      as (q' & _ & [-> | (x & ref & task & _ & _ & ->)]); simpl; lia.
  - unfold completeTask. destruct (get_task s taskId) as [[ref task]|]; simpl; lia.
  - unfold failTask. destruct (get_task s taskId) as [[ref task]|]; [|simpl; lia].
    case_decide; simpl; lia.
  - unfold fireTimer. destruct (timers s !! i) as [tm|]; [|lia]. simpl.
    destruct (objects s !! timer_task tm) as [task|]; simpl; lia.
  - unfold updateWorkerHeartbeat. destruct (workers s !! workerId); simpl; lia.
  - unfold incrementWorkerTaskCount. destruct (workers s !! workerId); simpl; lia.
Qed.

(** X4. In an execution without [ClearAll] the counters agree with the
    event log and with the calls made: [tasksCreated] is the number of
    [addTask] calls and of [task:created] events, [completedTasks],
    [failedTasks] and [retriedTasks] are the numbers of [task:completed],
    [task:failed] and [task:retrying] events, and [pendingTasks] is created
    plus retried minus the number of [task:processing] events. *)
Theorem counters_match_events config ops :
  ClearAll ∉ ops →
  let s := run config ops initial in
  let st := getQueueStats s in
  tasksCreated st = Z.of_nat (length (submitted ops))
  ∧ tasksCreated st = count_events is_task_created (emitted s)
  ∧ completedTasks st = count_events is_task_completed (emitted s)
  ∧ failedTasks st = count_events is_task_failed (emitted s)
  ∧ retriedTasks st = count_events is_task_retrying (emitted s)
  ∧ pendingTasks st
    = tasksCreated st + retriedTasks st
      - count_events is_task_processing (emitted s).
Proof.
  intros Hnc. simpl.
  enough (H : tasksCreated (stats (run config ops initial))
              = Z.of_nat (length (submitted ops))
              ∧ counters_match (run config ops initial)).
  { destruct H as (H0 & H1 & H2 & H3 & H4 & H5). by split_and!. }
  induction ops as [|op ops IH] using rev_ind.
  { split; [done|]. by split_and!. }
  apply not_elem_of_app in Hnc as [Hnc Hop].
  assert (Hop' : op ≠ ClearAll).
  { intros ->. apply Hop. by constructor. }
  destruct (IH Hnc) as [H0 Hm]. rewrite run_snoc. split.
  - rewrite step_tasksCreated by done.
    rewrite submitted_app, length_app. lia.
  - by apply step_counters_match.
Qed.

(** *** Task objects and results *)

Lemma object_ok_assign_processing workerId now task :
  object_ok task → object_ok (assign_processing workerId now task).
Proof.
  intros ([H0 H1] & H2 & H3). unfold object_ok. simpl. by split_and!.
Qed.

Lemma object_ok_assign_completed now task :
  object_ok task → object_ok (assign_completed now task).
Proof.
  intros ([H0 H1] & H2 & H3). unfold object_ok. simpl. by split_and!.
Qed.

Lemma object_ok_assign_pending now task :
  object_ok task → object_ok (assign_pending now task).
Proof.
  intros ([H0 H1] & H2 & H3). unfold object_ok. simpl. by split_and!.
Qed.

Lemma object_ok_assign_retrying error now delay task :
  object_ok task → Task.retries task < Task.maxRetries task →
  object_ok (assign_retrying error now delay task).
Proof.
  intros (H1 & H2 & H3) Hlt. unfold object_ok. simpl.
  split_and!; [lia|lia|done|done].
Qed.

Lemma object_ok_assign_failed error now task :
  object_ok task → ¬ Task.retries task < Task.maxRetries task →
  object_ok (assign_failed error now task).
Proof.
  intros (H1 & H2 & H3) Hlt. unfold object_ok. simpl.
  split_and!; [lia|lia|intros _; lia|done].
Qed.

Lemma step_objects_ok config s op :
  Forall object_ok (objects s) → Forall object_ok (objects (step config s op)).
Proof.
  intros H.
  assert (Hat : ∀ ref task, objects s !! ref = Some task → object_ok task).
  { intros ref task. by apply Forall_lookup_1. }
  destruct op as [taskId now taskData priority|workerId now|taskId result now
                 |taskId error now|i now| | |workerId ? ? ?|workerId|]; simpl;
    try done.
  - apply Forall_app. split; [done|]. apply Forall_singleton.
    split_and!; simpl; [lia..|done|done].
  - unfold getNextTask.
    destruct (scanLanes_spec [High; Normal; Low] workerId now s)
      as (q' & _ & [-> | (x & ref & task & _ & [_ Ho]%get_task_Some & ->)]);
      simpl; [done|].
    apply Forall_insert; [done|]. apply object_ok_assign_processing. eauto.
  - unfold completeTask.
    destruct (get_task s taskId) as [[ref task]|] eqn:Hg; [|done].
    apply get_task_Some in Hg as [_ Ho]. simpl.
    apply Forall_insert; [done|]. apply object_ok_assign_completed. eauto.
  - unfold failTask.
    destruct (get_task s taskId) as [[ref task]|] eqn:Hg; [|done].
    apply get_task_Some in Hg as [_ Ho].
    case_decide; simpl; (apply Forall_insert; [done|]).
    + apply object_ok_assign_retrying; eauto.
    + apply object_ok_assign_failed; eauto.
  - unfold fireTimer. destruct (timers s !! i) as [tm|]; [|done]. simpl.
    destruct (objects s !! timer_task tm) as [task|] eqn:Ho; [|done]. simpl.
    apply Forall_insert; [done|]. apply object_ok_assign_pending. eauto.
  - unfold updateWorkerHeartbeat. by destruct (workers s !! workerId).
  - unfold incrementWorkerTaskCount. by destruct (workers s !! workerId).
Qed.

Lemma run_objects_ok config ops :
  Forall object_ok (objects (run config ops initial)).
Proof.
  induction ops as [|op ops IH] using rev_ind; [by constructor|].
  rewrite run_snoc. by apply step_objects_ok.
Qed.

(** What [getTaskStatus] returns, in terms of the stored object. *)
Lemma getTaskStatus_Some taskId s t :
  getTaskStatus taskId s = Some t →
  ∃ ref task,
    get_task s taskId = Some (ref, task)
    ∧ fixed_fields t = fixed_fields task
    ∧ Task.status t = Task.status task
    ∧ Task.retries t = Task.retries task
    ∧ Task.result t
      = if decide (Task.status task = Completed) then results s !! taskId
        else Task.result task.
Proof.
  unfold getTaskStatus.
  destruct (get_task s taskId) as [[ref task]|]; [|done].
  intros Ht. exists ref, task. split; [done|].
  case_decide; injection Ht as <-; by split_and!.
Qed.

(** X5. For every task that [getTaskStatus] returns in any execution, the
    retry count is between 0 and [max 0 maxRetries], and a task reported
    [failed] has a retry count of exactly [max 0 maxRetries]: no task is
    retried more often than its max-retries allows, and none is failed
    before its retries are used up. *)
Theorem retries_within_bound config ops taskId task :
  getTaskStatus taskId (run config ops initial) = Some task →
  0 ≤ Task.retries task ≤ Z.max 0 (Task.maxRetries task)
  ∧ (Task.status task = Failed →
     Task.retries task = Z.max 0 (Task.maxRetries task)).
Proof.
  intros (ref & task0 & [_ Ho]%get_task_Some & Hf & Hst & Hr & _)%getTaskStatus_Some.
  pose proof (run_objects_ok config ops) as Hall.
  destruct (Forall_lookup_1 _ _ _ _ Hall Ho) as (H1 & H2 & _).
  unfold fixed_fields in Hf. injection Hf as _ _ Hm.
  rewrite Hr, Hm, Hst. split; [done|]. intros Hfailed. specialize (H2 Hfailed). lia.
Qed.

Lemma results_ok_unfold s :
  results_ok s ↔ results_ok_of (objects s) (tasks s) (results s).
Proof. done. Qed.

Lemma results_ok_of_write h m r ref task' :
  Task.status task' ≠ Completed →
  results_ok_of h m r → results_ok_of (<[ref := task']> h) m r.
Proof.
  intros Hst Hok taskId ref0 task Hm Ho Hc.
  apply list_lookup_insert_Some in Ho as [(-> & -> & _)|[_ Ho]]; [done|].
  by eapply Hok.
Qed.

Lemma step_results_ok config s op :
  refs_ok s → results_ok s → results_ok (step config s op).
Proof.
  intros Hok Hres. pose proof Hres as Hres'. apply results_ok_unfold in Hres'.
  destruct op as [taskId now taskData priority|workerId now|taskId result now
                 |taskId error now|i now| | |workerId ? ? ?|workerId|]; simpl;
    try done.
  - apply results_ok_unfold. simpl. intros x ref task.
    rewrite lookup_insert. case_decide as Hx.
    + intros [= <-]. rewrite lookup_app_r by done. rewrite Nat.sub_diag.
      by intros [= <-].
    + intros Hm Ho Hc. apply (Hres' x ref task); [done| |done].
      destruct Hok as [Hrefs _]. destruct (Hrefs _ _ Hm) as (t & Ht & _).
      rewrite lookup_app_l in Ho; [done|]. by eapply lookup_lt_Some.
  - unfold getNextTask.
    destruct (scanLanes_spec [High; Normal; Low] workerId now s)
      as (q' & _ & [-> | (x & ref & task & _ & _ & ->)]); [done|].
    apply results_ok_unfold. simpl. by apply results_ok_of_write.
  - unfold completeTask.
    destruct (get_task s taskId) as [[ref task]|] eqn:Hg; [|done].
    apply get_task_Some in Hg as [Hm Ho].
    apply results_ok_unfold. simpl. intros x ref0 task0 Hx Ho0 Hc.
    rewrite lookup_insert. case_decide as Hid; [done|].
    assert (ref ≠ ref0).
    { intros ->. apply Hid. by eapply refs_ok_inj. }
    rewrite list_lookup_insert_ne in Ho0 by done. by eapply Hres'.
  - unfold failTask.
    destruct (get_task s taskId) as [[ref task]|] eqn:Hg; [|done].
    case_decide; apply results_ok_unfold; simpl; by apply results_ok_of_write.
  - destruct (timers s !! i) as [tm|] eqn:Hi.
    + destruct (fireTimer_Some i now s tm Hok Hi) as (task & Ho & _ & ->).
      apply results_ok_unfold. simpl. by apply results_ok_of_write.
    + unfold fireTimer. by rewrite Hi.
  - unfold updateWorkerHeartbeat. by destruct (workers s !! workerId).
  - unfold incrementWorkerTaskCount. by destruct (workers s !! workerId).
Qed.

Lemma run_results_ok config ops : results_ok (run config ops initial).
Proof.
  induction ops as [|op ops IH] using rev_ind.
  { intros x ref task Hm. simpl in Hm. by rewrite lookup_empty in Hm. }
  rewrite run_snoc. apply step_results_ok; [|done].
  apply run_refs_ok, refs_ok_initial.
Qed.

(** X6. In every execution, [getTaskStatus] returns a task with a result
    exactly when it returns it with status [completed]: a completed task
    always comes with its result, and a task in any other status (also one
    that was completed before and failed afterwards) never shows one. *)
Theorem result_iff_completed config ops taskId task :
  getTaskStatus taskId (run config ops initial) = Some task →
  (is_Some (Task.result task) ↔ Task.status task = Completed).
Proof.
  intros (ref & task0 & Hg & _ & Hst & _ & Hr)%getTaskStatus_Some.
  pose proof Hg as [Hm Ho]%get_task_Some.
  pose proof (run_objects_ok config ops) as Hall.
  destruct (Forall_lookup_1 _ _ _ _ Hall Ho) as (_ & _ & Hnone).
  rewrite Hr, Hst. case_decide as Hc.
  - split; [done|]. intros _. by eapply (run_results_ok config ops).
  - rewrite Hnone. split; [by intros [? ?]|done].
Qed.

(** X7. A successful [completeTask] followed by [getTaskStatus] for the same
    id returns the task as [completed], with the result and the completion
    time that were passed in and with its id, priority, max-retries and
    retry count as they were. *)
Theorem complete_then_status taskId result now s :
  fst (completeTask taskId result now s) = true →
  ∃ ref before task,
    get_task s taskId = Some (ref, before)
    ∧ getTaskStatus taskId (snd (completeTask taskId result now s)) = Some task
    ∧ Task.status task = Completed
    ∧ Task.result task = Some result
    ∧ Task.completedAt task = Some now
    ∧ fixed_fields task = fixed_fields before
    ∧ Task.retries task = Task.retries before.
Proof.
  unfold completeTask.
  destruct (get_task s taskId) as [[ref task]|] eqn:Hg; [|done]. intros _.
  pose proof Hg as [Hm Ho]%get_task_Some.
  eexists ref, task, _. split; [done|]. unfold getTaskStatus. simpl.
  assert (Hg' : ∀ s', tasks s' = tasks s →
            objects s' = <[ref := assign_completed now task]> (objects s) →
            get_task s' taskId = Some (ref, assign_completed now task)).
  { intros s' Ht Hobj. apply get_task_Some. rewrite Ht, Hobj. split; [done|].
    apply list_lookup_insert_eq. by eapply lookup_lt_Some. }
  rewrite Hg' by done. simpl. rewrite lookup_insert_eq. by split_and!.
Qed.

(** X8. [addTask] followed by [getTaskStatus] for the new id returns the
    task that [addTask] returned: [pending], with no retries and no
    result; and in any execution, submitting under another id changes
    nothing in what [getTaskStatus] returns for an id. *)
Theorem submit_then_status config ops taskId now taskData priority :
  let s := run config ops initial in
  let r := addTask config taskId now taskData priority s in
  getTaskStatus taskId (snd r) = Some (fst r)
  ∧ Task.status (fst r) = Pending
  ∧ Task.retries (fst r) = 0
  ∧ Task.result (fst r) = None
  ∧ (∀ other, other ≠ taskId →
       getTaskStatus other (snd r) = getTaskStatus other s).
Proof.
  intros s r. split_and!; try done.
  - unfold getTaskStatus, r. by rewrite addTask_get_task.
  - intros other Hne.
    assert (Hok : refs_ok s) by apply run_refs_ok, refs_ok_initial.
    assert (Hg : get_task (snd r) other = get_task s other).
    { unfold get_task. simpl. rewrite lookup_insert_ne by done.
      destruct (tasks s !! other) as [ref|] eqn:Hm; [|done].
      destruct Hok as [Hrefs _]. destruct (Hrefs _ _ Hm) as (t & Ho & _).
      rewrite lookup_app_l; [done|]. by eapply lookup_lt_Some. }
    unfold getTaskStatus. by rewrite Hg.
Qed.

(** *** The worker registry *)

Lemma step_workers_task_op config s op :
  match op with
  | RegisterWorker _ _ _ | UnregisterWorker _ _ | Heartbeat _ _ _ _
  | IncrementWorkerTaskCount _ | ClearAll => True
  | _ => workers (step config s op) = workers s
         ∧ activeWorkers (stats (step config s op)) = activeWorkers (stats s)
  end.
Proof.
  destruct op as [taskId now taskData priority|workerId now|taskId result now
                 |taskId error now|i now| | |workerId ? ? ?|workerId|]; simpl;
    try done.
  - unfold getNextTask.
    by destruct (scanLanes_spec [High; Normal; Low] workerId now s)
      as (q' & _ & [-> | (x & ref & task & _ & _ & ->)]).
  - unfold completeTask. by destruct (get_task s taskId) as [[ref task]|].
  - unfold failTask. destruct (get_task s taskId) as [[ref task]|]; [|done].
    by case_decide.
  - unfold fireTimer. destruct (timers s !! i) as [tm|]; [|done]. simpl.
    by destruct (objects s !! timer_task tm).
Qed.

Lemma run_registrations config ops :
  ∀ s registered registered',
    dom (workers s) = registered →
    activeWorkers (stats s) = Z.of_nat (size (workers s)) →
    registrations registered ops = Some registered' →
    dom (workers (run config ops s)) = registered'
    ∧ activeWorkers (stats (run config ops s))
      = Z.of_nat (size (workers (run config ops s))).
Proof.
  induction ops as [|op ops IH]; intros s reg reg' Hdom Hsync Hreg.
  { simpl in *. by injection Hreg as <-. }
  change (run config (op :: ops) s) with (run config ops (step config s op)).
  pose proof (step_workers_task_op config s op) as Hop.
  destruct op as [taskId now taskData priority|workerId now|taskId result now
                 |taskId error now|i now| |workerId info now
                 |workerId status currentTask now|workerId|workerId now];
    simpl in Hreg;
    [destruct Hop as [Hw Ha]; apply (IH _ reg); [by rewrite Hw|by rewrite Hw, Ha|done]..
    | | | | | ].
  - apply (IH _ reg); done.
  - destruct (decide (workerId ∈ reg)) as [|Hnew]; [done|].
    assert (Hnone : workers s !! workerId = None).
    { apply not_elem_of_dom. by rewrite Hdom. }
    apply (IH _ ({[workerId]} ∪ reg)); [|simpl|done].
    + simpl. by rewrite dom_insert_L, Hdom.
    + rewrite map_size_insert_None by done. lia.
  - apply (IH _ reg); [| |done]; simpl; unfold updateWorkerHeartbeat;
      destruct (workers s !! workerId) as [worker|] eqn:Hw; try done; simpl.
    + by rewrite dom_insert_lookup_L.
    + by rewrite map_size_insert_Some.
  - apply (IH _ reg); [| |done]; simpl; unfold incrementWorkerTaskCount;
      destruct (workers s !! workerId) as [worker|] eqn:Hw; try done; simpl.
    + by rewrite dom_insert_lookup_L.
    + by rewrite map_size_insert_Some.
  - destruct (decide (workerId ∈ reg)) as [Hold|]; [|done].
    assert (Hsome : is_Some (workers s !! workerId)).
    { apply elem_of_dom. by rewrite Hdom. }
    apply (IH _ (reg ∖ {[workerId]})); [|simpl|done].
    + simpl. by rewrite dom_delete_L, Hdom.
    + rewrite map_size_delete_Some by done.
      destruct Hsome as [worker Hw].
      assert (size (workers s) ≠ 0%nat).
      { intros Hz. apply map_size_empty_inv in Hz. rewrite Hz in Hw.
        by rewrite lookup_empty in Hw. }
      lia.
Qed.

(** X9. When every [registerWorker] is for an id that is not registered and
    every [unregisterWorker] for one that is, then after any execution the
    registry holds exactly the ids registered and not unregistered, the
    active-worker counter is the number of worker records, and [clearAll]
    leaves the reported active-worker count as it was. *)
Theorem disciplined_workers_in_sync config ops registered :
  registrations ∅ ops = Some registered →
  let s := run config ops initial in
  dom (workers s) = registered
  ∧ activeWorkers (getQueueStats s) = Z.of_nat (size (workers s))
  ∧ activeWorkers (getQueueStats (clearAll s)) = activeWorkers (getQueueStats s).
Proof.
  intros Hreg s.
  destruct (run_registrations config ops initial ∅ registered) as [Hdom Hsync];
    [apply dom_empty_L|done|done|].
  fold s in Hdom, Hsync. simpl. by split_and!.
Qed.

(** *** The delays of the pending retries *)

Lemma retries_grow_write h ref task task' :
  h !! ref = Some task → Task.retries task ≤ Task.retries task' →
  retries_grow h (<[ref := task']> h).
Proof.
  intros Ho Hle r t Ht. destruct (decide (r = ref)) as [->|Hne].
  - exists task'. rewrite list_lookup_insert_eq by (by eapply lookup_lt_Some).
    split; [done|]. by replace t with task by congruence.
  - exists t. by rewrite list_lookup_insert_ne.
Qed.

Lemma timer_backoff_grow config s s' tm :
  retries_grow (objects s) (objects s') →
  timer_backoff config s tm → timer_backoff config s' tm.
Proof.
  intros Hg (task & j & Ho & Hj & Hd).
  destruct (Hg _ _ Ho) as (task' & Ho' & Hle).
  exists task', j. split_and!; [done|lia|lia|done].
Qed.

Lemma step_timer_backoff config s op :
  Forall object_ok (objects s) →
  (∀ tm, tm ∈ timers s → timer_backoff config s tm) →
  ∀ tm, tm ∈ timers (step config s op) → timer_backoff config (step config s op) tm.
Proof.
  intros Hobj H.
  assert (Hframe : ∀ s',
    retries_grow (objects s) (objects s') →
    (∀ tm, tm ∈ timers s' → tm ∈ timers s) →
    ∀ tm, tm ∈ timers s' → timer_backoff config s' tm).
  { intros s' Hg Hin tm Htm. eapply timer_backoff_grow; [done|]. auto. }
  assert (Hrefl : retries_grow (objects s) (objects s)).
  { intros ref task Ho. exists task. split; [done|lia]. }
  destruct op as [taskId now taskData priority|workerId now|taskId result now
                 |taskId error now|i now| | |workerId ? ? ?|workerId|].
  - apply Hframe; [|done]. simpl. intros ref task Ho. exists task.
    split; [|lia]. rewrite lookup_app_l; [done|]. by eapply lookup_lt_Some.
  - simpl. unfold getNextTask.
    destruct (scanLanes_spec [High; Normal; Low] workerId now s)
      as (q' & _ & [-> | (x & ref & task & _ & [_ Ho]%get_task_Some & ->)]).
    + by apply Hframe.
    + apply Hframe; [|done]. simpl. by eapply retries_grow_write.
  - simpl. unfold completeTask.
    destruct (get_task s taskId) as [[ref task]|] eqn:Hg; [|done].
    apply get_task_Some in Hg as [_ Ho].
    apply Hframe; [|done]. simpl. by eapply retries_grow_write.
  - simpl. unfold failTask.
    destruct (get_task s taskId) as [[ref task]|] eqn:Hg; [|done].
    apply get_task_Some in Hg as [_ Ho].
    case_decide.
    + simpl. intros tm [Hin|Hin]%elem_of_app.
      * eapply timer_backoff_grow; [|by apply H]. simpl.
        eapply retries_grow_write; [done|]. simpl. lia.
      * apply list_elem_of_singleton in Hin as ->.
        assert (0 ≤ Task.retries task).
        { by destruct (Forall_lookup_1 _ _ _ _ Hobj Ho) as ([? _] & _). }
        eexists _, (Task.retries task). simpl. split_and!; [|done| |done].
        -- apply list_lookup_insert_eq. by eapply lookup_lt_Some.
        -- simpl. lia.
    + apply Hframe; [|done]. simpl. by eapply retries_grow_write.
  - simpl. unfold fireTimer. destruct (timers s !! i) as [tm|]; [|done]. simpl.
    destruct (objects s !! timer_task tm) as [task|] eqn:Ho.
    + apply Hframe; [simpl; by eapply retries_grow_write|].
      simpl. intros tm'. apply list_elem_of_delete_inv.
    + apply Hframe; [done|]. simpl. intros tm'. apply list_elem_of_delete_inv.
  - by apply Hframe.
  - by apply Hframe.
  - simpl. unfold updateWorkerHeartbeat. by destruct (workers s !! workerId).
  - simpl. unfold incrementWorkerTaskCount. by destruct (workers s !! workerId).
  - by apply Hframe.
Qed.

Lemma run_timer_backoff config ops tm :
  tm ∈ timers (run config ops initial) →
  timer_backoff config (run config ops initial) tm.
Proof.
  revert tm. induction ops as [|op ops IH] using rev_ind.
  { intros tm Hin. by inversion Hin. }
  rewrite run_snoc. apply step_timer_backoff; [apply run_objects_ok|done].
Qed.

(** X10. In every execution, each retry that is scheduled and has not run
    yet belongs to a task object carrying the id it will re-enqueue, and
    its delay is [retryDelay * 2^j] for some [j] with [0 <= j < maxRetries]
    of that task; so with a non-negative [retryDelay] no retry waits longer
    than [retryDelay * 2^(maxRetries - 1)]. *)
Theorem pending_retry_delays config ops tm :
  let s := run config ops initial in
  tm ∈ timers s →
  ∃ task j,
    objects s !! timer_task tm = Some task
    ∧ Task.id task = timer_taskId tm
    ∧ 0 ≤ j < Task.maxRetries task
    ∧ timer_delay tm = WorkerConfig.retryDelay config * 2 ^ j
    ∧ (0 ≤ WorkerConfig.retryDelay config →
       timer_delay tm
       ≤ WorkerConfig.retryDelay config * 2 ^ (Task.maxRetries task - 1)).
Proof.
  intros s Hin.
  destruct (run_timer_backoff config ops tm Hin) as (task & j & Ho & Hj & Hd).
  fold s in Ho.
  assert (Hok : refs_ok s) by apply run_refs_ok, refs_ok_initial.
  destruct Hok as [_ Htm]. destruct (Htm _ Hin) as (task' & Ho' & Hid).
  assert (task' = task) as -> by congruence.
  destruct (Forall_lookup_1 _ _ _ _ (run_objects_ok config ops) Ho) as (Hr & _).
  exists task, j. split_and!; [done|done|lia|lia|done|].
  intros Hbase. rewrite Hd. apply Z.mul_le_mono_nonneg_l; [done|].
  apply Z.pow_le_mono_r; lia.
Qed.

(** ** The computation handler's arithmetic *)





Lemma factorial_loop_fact k : ∀ j : nat,
  factorial_loop k (Z.of_nat j + 1) (Z.of_nat (fact j)) = Z.of_nat (fact (j + k)).
Proof.
  induction k as [|k IH]; intros j; simpl.
  { by rewrite Nat.add_0_r. }
  replace (Z.of_nat j + 1 + 1) with (Z.of_nat (S j) + 1) by lia.
  replace (Z.of_nat (fact j) * (Z.of_nat j + 1)) with (Z.of_nat (fact (S j))).
  - rewrite IH. f_equal. f_equal. lia.
  - simpl fact. lia.
Qed.

(** X12. [factorial] returns the decimal representation of [n!] for every
    [n >= 0], and ["1"] for a negative [n]. *)
Theorem factorial_decimal n :
  factorial n = if decide (0 ≤ n) then pretty (Z.of_nat (fact (Z.to_nat n)))
                else "1".
Proof.
  unfold factorial. case_decide as H1.
  - case_decide as H0; [|done].
    assert (n = 0 ∨ n = 1) as [-> | ->] by lia; done.
  - rewrite decide_True by lia.
    pose proof (factorial_loop_fact (Z.to_nat (n - 1)) 1) as H.
    change (Z.of_nat 1 + 1) with 2 in H. change (Z.of_nat (fact 1)) with 1 in H.
    rewrite H. do 3 f_equal. lia.
Qed.

(** *** The sieve of [countPrimes] *)











(** X15. The dashboard badge and the summary route grade the same number of
    queued ids with different thresholds: they agree below 50, from 100 to
    199 and from 500 on, while from 50 to 99 the badge says Moderate where
    the route says healthy, and from 200 to 499 the badge says Overloaded
    where the route says moderate. *)
Theorem health_grades_differ totalQueued :
  (totalQueued < 50 →
     updateHealthBadge totalQueued = ("Healthy", "badge")
     ∧ summary_queueHealth totalQueued = "healthy")
  ∧ (50 ≤ totalQueued < 100 →
     updateHealthBadge totalQueued = ("Moderate", "badge warning")
     ∧ summary_queueHealth totalQueued = "healthy")
  ∧ (100 ≤ totalQueued < 200 →
     updateHealthBadge totalQueued = ("Moderate", "badge warning")
     ∧ summary_queueHealth totalQueued = "moderate")
  ∧ (200 ≤ totalQueued < 500 →
     updateHealthBadge totalQueued = ("Overloaded", "badge danger")
     ∧ summary_queueHealth totalQueued = "moderate")
  ∧ (500 ≤ totalQueued →
     updateHealthBadge totalQueued = ("Overloaded", "badge danger")
     ∧ summary_queueHealth totalQueued = "overloaded").
Proof.
  unfold updateHealthBadge, summary_queueHealth.
  split_and!; intros H; repeat case_decide; try lia; done.
Qed.

(** X16. For a non-negative number of milliseconds [formatUptime] shows the
    hours, minutes and seconds of the elapsed whole seconds: with
    [ms `div` 1000 = (h * 60 + m) * 60 + s], [m < 60] and [s < 60], it
    prints ["<h>h <m>m"] when [h > 0], ["<m>m <s>s"] when [h = 0 < m], and
    ["<s>s"] otherwise. *)
Theorem formatUptime_fields ms :
  0 ≤ ms →
  ∃ h m s,
    ms `div` 1000 = (h * 60 + m) * 60 + s
    ∧ 0 ≤ h ∧ 0 ≤ m < 60 ∧ 0 ≤ s < 60
    ∧ formatUptime ms
      = if decide (h > 0) then pretty h +:+ "h " +:+ pretty m +:+ "m"
        else if decide (m > 0) then pretty m +:+ "m " +:+ pretty s +:+ "s"
        else pretty s +:+ "s".
Proof.
  intros Hms.
  set (seconds := ms `div` 1000). set (minutes := seconds `div` 60).
  set (hours := minutes `div` 60).
  assert (Hs : 0 ≤ seconds) by (apply Z.div_pos; lia).
  assert (Hm : 0 ≤ minutes) by (apply Z.div_pos; lia).
  assert (Hh : 0 ≤ hours) by (apply Z.div_pos; lia).
  exists hours, (minutes `mod` 60), (seconds `mod` 60).
  pose proof (Z.div_mod seconds 60 ltac:(lia)) as Hds.
  pose proof (Z.div_mod minutes 60 ltac:(lia)) as Hdm.
  pose proof (Z.mod_pos_bound seconds 60 ltac:(lia)).
  pose proof (Z.mod_pos_bound minutes 60 ltac:(lia)).
  fold minutes in Hds. fold hours in Hdm.
  split_and!; [lia|lia|lia|lia|lia|lia|].
  unfold formatUptime. fold seconds minutes hours.
  rewrite !Z.rem_mod_nonneg by lia.
  destruct (decide (hours > 0)); [done|].
  assert (hours = 0) by lia.
  replace (minutes `mod` 60) with minutes by lia.
  destruct (decide (minutes > 0)); [done|].
  by replace (seconds `mod` 60) with seconds by lia.
Qed.

(** ** The task routes *)




(** ** The in-flight list and the worker loop *)

Lemma splice_out_absent x l : x ∉ l → splice_out x l = l.
Proof.
  intros Hx. unfold splice_out, indexOf.
  destruct (list_find (λ y, y = x) l) as [[i y]|] eqn:Hf.
  - apply list_find_Some in Hf as (Hi & -> & _).
    exfalso. apply Hx. by eapply list_elem_of_lookup_2.
  - by rewrite decide_False by lia.
Qed.

Lemma splice_out_present x l : x ∈ l → l ≡ₚ x :: splice_out x l.
Proof.
  intros Hx. unfold splice_out, indexOf.
  destruct (list_find (λ y, y = x) l) as [[i y]|] eqn:Hf.
  - apply list_find_Some in Hf as (Hi & -> & _).
    rewrite decide_True by lia. rewrite Nat2Z.id.
    by apply delete_Permutation.
  - exfalso. eapply list_find_None in Hf. rewrite Forall_forall in Hf.
    by apply (Hf x).
Qed.

Lemma step_in_flight_exact config s op :
  answers_in_flight s op = true →
  processingTasks (stats s) = Z.of_nat (length (processing s)) →
  processingTasks (stats (step config s op))
  = Z.of_nat (length (processing (step config s op))).
Proof.
  intros Hop H.
  assert (Hsplice : ∀ taskId, taskId ∈ processing s →
            Z.of_nat (length (splice_out taskId (processing s)))
            = Z.of_nat (length (processing s)) - 1).
  { intros taskId Hin. apply splice_out_present in Hin.
    apply Permutation_length in Hin. simpl in Hin. lia. }
  destruct op as [taskId now taskData priority|workerId now|taskId result now
                 |taskId error now|i now| | |workerId ? ? ?|workerId|]; simpl;
    try done.
  - unfold getNextTask.
    destruct (scanLanes_spec [High; Normal; Low] workerId now s)
      as (q' & _ & [-> | (x & ref & task & _ & _ & ->)]); simpl; [done|].
    rewrite length_app. simpl. lia.
  - unfold completeTask. simpl in Hop.
    destruct (get_task s taskId) as [[ref task]|]; [|done].
    apply bool_decide_eq_true in Hop. simpl. rewrite Hsplice by done. lia.
  - unfold failTask. simpl in Hop.
    destruct (get_task s taskId) as [[ref task]|]; [|done].
    apply bool_decide_eq_true in Hop.
    case_decide; simpl; rewrite Hsplice by done; lia.
  - unfold fireTimer. destruct (timers s !! i) as [tm|]; [|done]. simpl.
    by destruct (objects s !! timer_task tm).
  - unfold updateWorkerHeartbeat. by destruct (workers s !! workerId).
  - unfold incrementWorkerTaskCount. by destruct (workers s !! workerId).
Qed.

(** X19. When every completion and every failure is reported for a task
    that is in flight at that moment (or for an id the store does not
    know), the processing counter is exactly the length of the in-flight
    list: [getQueueStats] reports [processingTasks = processingCount],
    whatever else happens, clearing included. *)
Theorem in_flight_exact config ops :
  in_flight_only config ops initial = true →
  let st := getQueueStats (run config ops initial) in
  processingTasks st = processingCount st.
Proof.
  simpl.
  assert (Hgen : ∀ s, in_flight_only config ops s = true →
            processingTasks (stats s) = Z.of_nat (length (processing s)) →
            processingTasks (stats (run config ops s))
            = Z.of_nat (length (processing (run config ops s)))).
  { induction ops as [|op ops IH]; intros s Hd Hs; [done|].
    simpl in Hd. apply andb_true_iff in Hd as [Hop Hd].
    simpl. apply IH; [done|]. by apply step_in_flight_exact. }
  intros Hd. by apply Hgen.
Qed.

(** X20. Reporting the completion of a stored task that is not in flight
    (a second completion, say) is accepted: [completeTask] returns [true],
    counts one more completed task and takes one off the processing
    counter, while the in-flight list and the pending counter stay as they
    are; so the processing counter falls one further below the length of
    the in-flight list. *)
Theorem complete_not_in_flight taskId result now s :
  is_Some (get_task s taskId) → taskId ∉ processing s →
  let r := completeTask taskId result now s in
  fst r = true
  ∧ processing (snd r) = processing s
  ∧ processingTasks (stats (snd r)) = processingTasks (stats s) - 1
  ∧ completedTasks (stats (snd r)) = completedTasks (stats s) + 1
  ∧ pendingTasks (stats (snd r)) = pendingTasks (stats s)
  ∧ results (snd r) !! taskId = Some result.
Proof.
  intros [[ref task] Hget] Hnot. unfold completeTask. rewrite Hget. simpl.
  rewrite splice_out_absent by done. rewrite lookup_insert_eq.
  by split_and!.
Qed.







(** ** The demo queue *)

Lemma demo_added_app ops ops' :
  Demo.added (ops ++ ops') = Demo.added ops ++ Demo.added ops'.
Proof.
  induction ops as [|[] ops IH]; simpl; [done|by rewrite IH|done..].
Qed.

Lemma demo_queue_ids_seq (h : list Demo.Task) k n :
  (k + n ≤ length h)%nat →
  omap (λ ref, Demo.id <$> h !! ref) (seq k n)
  = take n (drop k (Demo.id <$> h)).
Proof.
  revert k. induction n as [|n IH]; intros k Hlen; [done|].
  simpl. destruct (lookup_lt_is_Some_2 h k) as [task Ht]; [lia|].
  rewrite Ht. simpl. rewrite IH by lia.
  rewrite (drop_S (Demo.id <$> h) (Demo.id task) k)
    by (by rewrite list_lookup_fmap, Ht).
  done.
Qed.

Lemma demo_step_fifo k ids acc op :
  op ≠ Demo.Clear →
  Demo.fifo_state k ids acc →
  ∃ k', Demo.fifo_state k' (ids ++ Demo.added [op]) (Demo.step acc op).
Proof.
  intros Hnc (Hk & Hobj & Hq & Hf & Hc). destruct acc as [fetched q].
  simpl in *. destruct op as [taskId now type|now|taskId res now|]; simpl.
  - exists k. unfold Demo.fifo_state. simpl.
    rewrite fmap_app, Hobj, length_app, Hq. simpl.
    assert (Hlen : length (Demo.objects q) = length ids)
      by (by rewrite <- Hobj, length_fmap).
    split_and!; [lia|done| | |lia].
    + replace (length ids + 1 - k)%nat with ((length ids - k) + 1)%nat by lia.
      rewrite seq_app. simpl. do 2 f_equal. lia.
    + rewrite take_app_le by lia. done.
  - rewrite app_nil_r. unfold Demo.getNextTask. rewrite Hq.
    assert (Hlen : length (Demo.objects q) = length ids)
      by (by rewrite <- Hobj, length_fmap).
    destruct (decide (k = length ids)) as [->|Hne].
    + rewrite Nat.sub_diag. simpl. exists (length ids).
      unfold Demo.fifo_state. simpl. rewrite Nat.sub_diag, app_nil_r.
      rewrite Nat.sub_diag in Hq. by split_and!.
    + replace (length ids - k)%nat with (S (length ids - S k)) by lia.
      simpl. destruct (lookup_lt_is_Some_2 (Demo.objects q) k) as [task Ht];
        [lia|].
      rewrite Ht. simpl. exists (S k). unfold Demo.fifo_state. simpl.
      assert (Hid : ids !! k = Some (Demo.id task)).
      { by rewrite <- Hobj, list_lookup_fmap, Ht. }
      split_and!; [lia| |done| |done].
      * rewrite list_fmap_insert. simpl. rewrite Hobj.
        by apply list_insert_id.
      * rewrite Hf. by erewrite take_S_r.
  - rewrite app_nil_r. exists k. unfold Demo.completeTask.
    destruct (Demo.tasks q !! taskId) as [ref|]; [|done].
    destruct (Demo.objects q !! ref) as [task|] eqn:Ht; [|done].
    unfold Demo.fifo_state. simpl. split_and!; [done| |done..].
    rewrite list_fmap_insert. simpl. rewrite Hobj.
    apply list_insert_id. by rewrite <- Hobj, list_lookup_fmap, Ht.
  - done.
Qed.

Lemma demo_run_fifo ops :
  Demo.Clear ∉ ops → ∃ k, Demo.fifo_state k (Demo.added ops) (Demo.run ops).
Proof.
  induction ops as [|op ops IH] using rev_ind; intros Hnc.
  { exists 0%nat. unfold Demo.fifo_state. simpl. by split_and!. }
  destruct IH as (k & IH).
  { intros Hin. apply Hnc. apply elem_of_app. by left. }
  unfold Demo.run. rewrite foldl_snoc, demo_added_app.
  eapply demo_step_fifo; [|done].
  intros ->. apply Hnc. apply elem_of_app. right. by left.
Qed.

(** X23. The demo queue is first in, first out.  While it is not cleared,
    the ids handed out by [getNextTask], in the order of the calls,
    followed by the ids still in the queue, head first, are exactly the ids
    given to [addTask] in the order of those calls; so the tasks handed out
    are a prefix of the tasks added.  [getStats] then reports as created
    the number of tasks added and as pending that number less the number
    handed out. *)
Theorem demo_first_in_first_out ops :
  Demo.Clear ∉ ops →
  let fetched := fst (Demo.run ops) in
  let q := snd (Demo.run ops) in
  fetched ++ Demo.queue_ids q = Demo.added ops
  ∧ fetched `prefix_of` Demo.added ops
  ∧ Demo.stats_created (Demo.getStats q) = Z.of_nat (length (Demo.added ops))
  ∧ Demo.stats_pending (Demo.getStats q)
    = Z.of_nat (length (Demo.added ops)) - Z.of_nat (length fetched).
Proof.
  intros Hnc fetched q.
  destruct (demo_run_fifo ops Hnc) as (k & Hk & Hobj & Hq & Hf & Hc).
  fold q in Hobj, Hq, Hc. fold fetched in Hf.
  assert (Hids : fetched ++ Demo.queue_ids q = Demo.added ops).
  { unfold Demo.queue_ids. rewrite Hq, demo_queue_ids_seq.
    - rewrite Hobj, Hf.
      rewrite (take_ge (drop k (Demo.added ops)))
        by (rewrite length_drop; lia).
      apply take_drop.
    - rewrite <- Hobj, length_fmap in Hk |- *. lia. }
  split_and!.
  - done.
  - rewrite <- Hids. by apply prefix_app_r.
  - done.
  - simpl. rewrite Hq, length_seq, Hf, length_take. lia.
Qed.

(** X24. The average [getStats] reports is [0] while nothing is completed,
    and otherwise the integer nearest to the total processing time divided
    by the completed count, a half rounded up: twice its distance to the
    exact mean is at most one, and short of one on the lower side.  Each
    completion of a stored task adds one to the count and, to the total,
    the time since the task was started, or since it was created when it
    was never fetched or fetched at time [0]; the task is not checked to be
    in processing, so completing it again counts again. *)
Theorem demo_average_rounded q :
  let st := Demo.getStats q in
  (Demo.stats_completed st ≤ 0 → Demo.stats_avgProcessingTime st = 0)
  ∧ (0 < Demo.stats_completed st →
     2 * Demo.stats_totalProcessingTime st - Demo.stats_completed st
     < 2 * Demo.stats_completed st * Demo.stats_avgProcessingTime st
     ≤ 2 * Demo.stats_totalProcessingTime st + Demo.stats_completed st)
  ∧ (∀ taskId res now ref task,
       Demo.tasks q !! taskId = Some ref → Demo.objects q !! ref = Some task →
       let st' := Demo.getStats (Demo.completeTask taskId res now q) in
       Demo.stats_completed st' = Demo.stats_completed st + 1
       ∧ Demo.stats_totalProcessingTime st'
         = Demo.stats_totalProcessingTime st
           + (now - match Demo.startedAt task with
                    | Some started =>
                        if decide (started = 0) then Demo.createdAt task
                        else started
                    | None => Demo.createdAt task
                    end)
       ∧ Demo.stats_pending st' = Demo.stats_pending st).
Proof.
  simpl. split_and!.
  - intros H. by rewrite decide_False by lia.
  - intros H. rewrite decide_True by lia. unfold Demo.round_div.
    set (c := Demo.completed (Demo.stats q)) in *.
    set (t := Demo.totalProcessingTime (Demo.stats q)).
    pose proof (Z.div_mod (2 * t + c) (2 * c) ltac:(lia)) as Hdm.
    pose proof (Z.mod_pos_bound (2 * t + c) (2 * c) ltac:(lia)) as Hb.
    lia.
  - intros taskId res now ref task Ht Ho. unfold Demo.completeTask.
    rewrite Ht, Ho. simpl. by split_and!.
Qed.

Lemma demo_postLoop_spec ids clock type n :
  ∀ k created_tasks q,
    let r := Demo.postLoop n k ids clock type created_tasks q in
    length (fst r) = (length created_tasks + n)%nat
    ∧ Demo.id <$> fst r = (Demo.id <$> created_tasks) ++ (ids <$> seq k n)
    ∧ Demo.queue (snd r)
      = Demo.queue q ++ seq (length (Demo.objects q)) n
    ∧ Demo.id <$> Demo.objects (snd r)
      = (Demo.id <$> Demo.objects q) ++ (ids <$> seq k n)
    ∧ Demo.created (Demo.stats (snd r))
      = Demo.created (Demo.stats q) + Z.of_nat n.
Proof.
  induction n as [|n IH]; intros k created_tasks q; cbv zeta.
  { simpl. rewrite !app_nil_r. split_and!; [lia|done..|lia]. }
  cbn [Demo.postLoop].
  destruct (IH (S k)
              (created_tasks ++ [fst (Demo.addTask (ids k) (clock k) type q)])
              (snd (Demo.addTask (ids k) (clock k) type q)))
    as (H1 & H2 & H3 & H4 & H5).
  split_and!.
  - rewrite H1, length_app. simpl. lia.
  - rewrite H2, fmap_app. simpl. by rewrite <- app_assoc.
  - rewrite H3. simpl. rewrite length_app. simpl. rewrite <- app_assoc.
    simpl. do 3 f_equal. lia.
  - rewrite H4. simpl. rewrite fmap_app. simpl. by rewrite <- app_assoc.
  - rewrite H5. simpl. lia.
Qed.

(** X25. The demo route [POST /api/tasks] with an integer [count] (1 when
    missing) creates [min(count, 100)] tasks, none when that is not
    positive, so never more than a hundred per request: it answers that
    number with that many tasks, which carry the ids handed out in order
    and are appended to the queue in that order, and the created counter
    grows by it. *)
Theorem demo_post_capped ids clock type count q :
  let n := Z.to_nat (Z.min (default 1 count) 100) in
  let r := Demo.postTasks ids clock type count q in
  (n ≤ 100)%nat
  ∧ fst (fst r) = Z.max 0 (Z.min (default 1 count) 100)
  ∧ length (snd (fst r)) = n
  ∧ Demo.id <$> snd (fst r) = ids <$> seq 0 n
  ∧ Forall (λ task, Demo.type task = default "default" type
                    ∧ Demo.status task = Demo.status_pending) (snd (fst r))
  ∧ Demo.queue (snd r) = Demo.queue q ++ seq (length (Demo.objects q)) n
  ∧ Demo.created (Demo.stats (snd r)) = Demo.created (Demo.stats q) + Z.of_nat n.
Proof.
  intros n r. unfold r, Demo.postTasks. cbn [fst snd]. fold n.
  destruct (demo_postLoop_spec ids clock (default "default" type) n 0 [] q)
    as (H1 & H2 & H3 & H4 & H5).
  split_and!; [lia|rewrite H1; simpl; lia|done..| |done|done].
  clear. generalize (@nil Demo.Task) (Forall_nil_2
    (λ task, Demo.type task = default "default" type
             ∧ Demo.status task = Demo.status_pending)).
  generalize 0%nat. revert q.
  induction n as [|n IH]; intros q k l Hl; [done|].
  simpl. apply IH. apply Forall_app. split; [done|]. by repeat constructor.
Qed.

(** ** The further properties on concrete executions *)

(** [pending_is_queued] while [t1] waits for its retry and [t2] is queued. *)
Lemma pending_is_queued_witness :
  let ops := one_failure ++ [Submit "t2" 30 email (Some High)] in
  let st := getQueueStats (run (default_worker 4) ops initial) in
  (ClearAll ∉ ops) ∧ ("" ∉ submitted ops)
  ∧ totalQueued st = pendingTasks st.
Proof.
  intros ops st.
  assert (H1 : ClearAll ∉ ops) by by_computation.
  assert (H2 : "" ∉ submitted ops) by by_computation.
  split_and!; [done..|].
  exact (pending_is_queued (default_worker 4) ops H1 H2).
Defined.

(** [counters_match_events] after a failure, its retry and a completion. *)
Lemma counters_match_events_witness :
  let ops := one_failure ++ [TimerFires 0 1020; FetchNext "worker-1" 1030;
                             Complete "t1" "sent" 1040] in
  let s := run (default_worker 4) ops initial in
  (ClearAll ∉ ops)
  ∧ tasksCreated (getQueueStats s) = 1
  ∧ completedTasks (getQueueStats s)
    = count_events is_task_completed (emitted s)
  ∧ retriedTasks (getQueueStats s) = count_events is_task_retrying (emitted s).
Proof.
  intros ops s.
  assert (H1 : ClearAll ∉ ops) by by_computation.
  destruct (counters_match_events (default_worker 4) ops H1)
    as (Hc & _ & Hd & _ & Hr & _).
  split_and!; [done|exact Hc|exact Hd|exact Hr].
Defined.

(** [retries_within_bound] for [t1] waiting for its first retry. *)
Lemma retries_within_bound_witness :
  ∃ task,
    getTaskStatus "t1" (run (default_worker 4) one_failure initial) = Some task
    ∧ 0 ≤ Task.retries task ≤ Z.max 0 (Task.maxRetries task)
    ∧ (Task.status task = Failed →
       Task.retries task = Z.max 0 (Task.maxRetries task)).
Proof.
  eexists. split; [vm_compute; reflexivity|].
  apply (retries_within_bound (default_worker 4) one_failure "t1").
  vm_compute. reflexivity.
Defined.

(** [result_iff_completed] for a completed task. *)
Lemma result_iff_completed_witness :
  let ops := [Submit "a" 0 email None; FetchNext "worker-1" 5;
              Complete "a" "sent" 15] in
  ∃ task,
    getTaskStatus "a" (run (default_worker 4) ops initial) = Some task
    ∧ (is_Some (Task.result task) ↔ Task.status task = Completed).
Proof.
  intros ops. eexists. split; [vm_compute; reflexivity|].
  apply (result_iff_completed (default_worker 4) ops "a").
  vm_compute. reflexivity.
Defined.

(** [complete_then_status] for a task that was fetched. *)
Lemma complete_then_status_witness :
  let s := run (default_worker 4)
             [Submit "a" 0 email None; FetchNext "worker-1" 5] initial in
  fst (completeTask "a" "sent" 15 s) = true
  ∧ ∃ ref before task,
      get_task s "a" = Some (ref, before)
      ∧ getTaskStatus "a" (snd (completeTask "a" "sent" 15 s)) = Some task
      ∧ Task.status task = Completed
      ∧ Task.result task = Some "sent"
      ∧ Task.completedAt task = Some 15
      ∧ fixed_fields task = fixed_fields before
      ∧ Task.retries task = Task.retries before.
Proof.
  intros s.
  assert (H : fst (completeTask "a" "sent" 15 s) = true)
    by (vm_compute; reflexivity).
  split; [exact H|]. exact (complete_then_status "a" "sent" 15 s H).
Defined.

(** [disciplined_workers_in_sync] after two registrations and one
    unregistration. *)
Lemma disciplined_workers_in_sync_witness :
  let ops := [RegisterWorker "w1" Worker.no_info 0; Submit "t1" 1 email None;
              RegisterWorker "w2" Worker.no_info 2; UnregisterWorker "w1" 3] in
  let s := run (default_worker 4) ops initial in
  ∃ registered,
    registrations ∅ ops = Some registered
    ∧ dom (workers s) = registered
    ∧ activeWorkers (getQueueStats s) = Z.of_nat (size (workers s))
    ∧ activeWorkers (getQueueStats (clearAll s))
      = activeWorkers (getQueueStats s).
Proof.
  intros ops s. eexists. split; [reflexivity|].
  apply (disciplined_workers_in_sync (default_worker 4) ops). reflexivity.
Defined.

(** [pending_retry_delays] for the retry [t1] waits for. *)
Lemma pending_retry_delays_witness :
  let config := default_worker 4 in
  let s := run config one_failure initial in
  let tm := mkTimer 0 "t1" 1000 in
  tm ∈ timers s
  ∧ ∃ task j,
      objects s !! timer_task tm = Some task
      ∧ Task.id task = timer_taskId tm
      ∧ 0 ≤ j < Task.maxRetries task
      ∧ timer_delay tm = WorkerConfig.retryDelay config * 2 ^ j
      ∧ (0 ≤ WorkerConfig.retryDelay config →
         timer_delay tm
         ≤ WorkerConfig.retryDelay config * 2 ^ (Task.maxRetries task - 1)).
Proof.
  intros config s tm.
  assert (H : tm ∈ timers s).
  { replace (timers s) with [tm] by (vm_compute; reflexivity). by left. }
  split; [exact H|]. exact (pending_retry_delays config one_failure tm H).
Defined.

(** [formatUptime_fields] for one hour, two minutes and five seconds. *)
Lemma formatUptime_fields_witness :
  0 ≤ 3725000
  ∧ ∃ h m s,
      3725000 `div` 1000 = (h * 60 + m) * 60 + s
      ∧ 0 ≤ h ∧ 0 ≤ m < 60 ∧ 0 ≤ s < 60
      ∧ formatUptime 3725000
        = if decide (h > 0) then pretty h +:+ "h " +:+ pretty m +:+ "m"
          else if decide (m > 0) then pretty m +:+ "m " +:+ pretty s +:+ "s"
          else pretty s +:+ "s".
Proof.
  assert (H : 0 ≤ 3725000) by lia.
  split; [exact H|]. exact (formatUptime_fields 3725000 H).
Defined.

(** [in_flight_exact] when [t1] fails, is retried and completed. *)
Lemma in_flight_exact_witness :
  let config := default_worker 4 in
  let ops := one_failure ++ [TimerFires 0 1020; FetchNext "worker-1" 1030;
                             Complete "t1" "sent" 1040;
                             Complete "bogus" "sent" 1050] in
  let st := getQueueStats (run config ops initial) in
  in_flight_only config ops initial = true
  ∧ processingTasks st = processingCount st.
Proof.
  intros config ops st.
  assert (H : in_flight_only config ops initial = true)
    by (vm_compute; reflexivity).
  split; [exact H|]. exact (in_flight_exact config ops H).
Defined.

(** [complete_not_in_flight] for a second completion of [a]: the processing
    counter falls to [-1]. *)
Lemma complete_not_in_flight_witness :
  let s := run (default_worker 4)
             [Submit "a" 0 email None; FetchNext "worker-1" 5;
              Complete "a" "sent" 15] initial in
  let r := completeTask "a" "again" 20 s in
  is_Some (get_task s "a") ∧ ("a" ∉ processing s)
  ∧ fst r = true
  ∧ processing (snd r) = []
  ∧ processingTasks (stats (snd r)) = -1
  ∧ completedTasks (stats (snd r)) = 2.
Proof.
  intros s r.
  assert (H1 : is_Some (get_task s "a")) by (eexists; vm_compute; reflexivity).
  assert (H2 : "a" ∉ processing s) by by_computation.
  destruct (complete_not_in_flight "a" "again" 20 s H1 H2)
    as (Ha & Hb & Hc & Hd & _).
  fold r in Ha, Hb, Hc, Hd.
  split_and!; [done|done|exact Ha| | |].
  - rewrite Hb. vm_compute. reflexivity.
  - rewrite Hc. vm_compute. reflexivity.
  - rewrite Hd. vm_compute. reflexivity.
Defined.



(** [demo_first_in_first_out] for three tasks of which two are handed out. *)
Lemma demo_first_in_first_out_witness :
  let ops := [Demo.Add "a" 0 "default"; Demo.Add "b" 1 "default";
              Demo.Next 2; Demo.Add "c" 3 "default"; Demo.Next 4;
              Demo.Complete "a" "done" 5] in
  (Demo.Clear ∉ ops)
  ∧ fst (Demo.run ops) = ["a"; "b"]
  ∧ Demo.queue_ids (snd (Demo.run ops)) = ["c"]
  ∧ Demo.stats_pending (Demo.getStats (snd (Demo.run ops))) = 1.
Proof.
  intros ops.
  assert (H : Demo.Clear ∉ ops) by by_computation.
  destruct (demo_first_in_first_out ops H) as (Hids & _ & _ & Hp).
  split_and!; [exact H|vm_compute; reflexivity|vm_compute; reflexivity|].
  rewrite Hp. vm_compute. reflexivity.
Defined.
